(** * httpclient: a method-based HTTP client with request middleware

  Shallow embedding of [src/httpclient/httpclient.go] (package
  [httpclient] of hay-kot/gkit) and of the standard-library functions its
  bodies call ([strings.HasPrefix], [strings.TrimRight],
  [strings.TrimLeft], [path.Join], [path.Clean]).

  Go strings are byte sequences; they are modelled as [string] (a list of
  8-bit [ascii] characters).  Go's [(T, error)] results are pairs whose
  second component is an [option]: [None] is the nil error.  Nilable
  pointers ([*http.Request], [*http.Response]) are [option]s as well. *)

From Stdlib Require Import String Ascii Bool Arith ZArith Lia List.
From Stdlib Require Import DecimalString.
Import ListNotations.

Local Open Scope string_scope.
Local Open Scope nat_scope.
Local Open Scope list_scope.

(* ===================================================================== *)
(** * Part I: definitions                                                 *)
(* ===================================================================== *)

(** ** Go's [strings] package (the functions [Client.Path] calls) *)

Module strings.

Definition bytes (s : string) : list ascii := list_ascii_of_string s.
Definition of_bytes (l : list ascii) : string := string_of_list_ascii l.

(** [func HasPrefix(s, prefix string) bool {
       return len(s) >= len(prefix) && s[:len(prefix)] == prefix }] *)
Definition HasPrefix (s prefix : string) : bool :=
  Nat.leb (String.length prefix) (String.length s)
  && String.eqb (substring 0 (String.length prefix) s) prefix.

(** [func trimLeftByte(s string, c byte) string {
       for len(s) > 0 && s[0] == c { s = s[1:] }
       return s }] *)
Fixpoint trimLeftBytes (s : list ascii) (c : ascii) : list ascii :=
  match s with
  | [] => []
  | a :: s' => if Ascii.eqb a c then trimLeftBytes s' c else s
  end.

Definition trimLeftByte (s : string) (c : ascii) : string :=
  of_bytes (trimLeftBytes (bytes s) c).

(** [func trimRightByte(s string, c byte) string {
       for len(s) > 0 && s[len(s)-1] == c { s = s[:len(s)-1] }
       return s }]
    The loop strips from the right end; here it runs on the reversed
    byte sequence. *)
Definition trimRightByte (s : string) (c : ascii) : string :=
  of_bytes (rev (trimLeftBytes (rev (bytes s)) c)).

Definition in_cutset (cutset : list ascii) (a : ascii) : bool :=
  existsb (Ascii.eqb a) cutset.

Fixpoint trimLeftSet (s : list ascii) (cutset : list ascii) : list ascii :=
  match s with
  | [] => []
  | a :: s' => if in_cutset cutset a then trimLeftSet s' cutset else s
  end.

(** [utf8.RuneSelf]: bytes below it are single-byte runes. *)
Definition RuneSelf : nat := 128.

(** [len(cutset) == 1 && cutset[0] < utf8.RuneSelf] *)
Definition single_ascii (cutset : string) : option ascii :=
  match cutset with
  | String c EmptyString =>
      if nat_of_ascii c <? RuneSelf then Some c else None
  | _ => None
  end.

(** [func TrimLeft(s, cutset string) string {
       if s == "" || cutset == "" { return s }
       if len(cutset) == 1 && cutset[0] < utf8.RuneSelf {
         return trimLeftByte(s, cutset[0]) }
       ... }]
    and the same for [TrimRight].  The remaining branches (longer
    cutsets) are rendered byte by byte, which is what Go does for ASCII
    cutsets; the client only ever passes ["/"]. *)
Definition TrimLeft (s cutset : string) : string :=
  if String.eqb s EmptyString || String.eqb cutset EmptyString then s
  else
    match single_ascii cutset with
    | Some c => trimLeftByte s c
    | None => of_bytes (trimLeftSet (bytes s) (bytes cutset))
    end.

Definition TrimRight (s cutset : string) : string :=
  if String.eqb s EmptyString || String.eqb cutset EmptyString then s
  else
    match single_ascii cutset with
    | Some c => trimRightByte s c
    | None => of_bytes (rev (trimLeftSet (rev (bytes s)) (bytes cutset)))
    end.

(** [func Repeat(s string, count int) string] *)
Fixpoint Repeat (s : string) (count : nat) : string :=
  match count with
  | 0 => EmptyString
  | S n => s ++ Repeat s n
  end.

End strings.

(** ** Go's [path] package: [Clean] and [Join] *)

Module path.

Import strings.

Definition slash : ascii := "/"%char.
Definition dot : ascii := "."%char.

(** The output buffer of [Clean] (Go's [lazybuf]) is represented by the
    bytes written so far, [buf[0:w]]: [out.w] is [length out],
    [out.append(c)] is [out ++ [c]], and lowering [out.w] truncates. *)

(** [out.w--
     for out.w > dotdot && out.index(out.w) != '/' { out.w-- }]
    Returns the final [out.w]; [fuel] bounds the iterations by the
    starting [w]. *)
Fixpoint backtrack (fuel w dotdot : nat) (out : list ascii) : nat :=
  match fuel with
  | 0 => w
  | S fuel' =>
      if (dotdot <? w) && negb (Ascii.eqb (nth w out zero) slash)
      then backtrack fuel' (w - 1) dotdot out
      else w
  end.

(** [for ; r < n && path[r] != '/'; r++ { out.append(path[r]) }];
    returns the unread input and the buffer. *)
Fixpoint copy_element (rest out : list ascii) : list ascii * list ascii :=
  match rest with
  | [] => ([], out)
  | c :: rest' =>
      if Ascii.eqb c slash then (rest, out)
      else copy_element rest' (out ++ [c])
  end.

(** [path[r] == '.' && (r+1 == n || path[r+1] == '/')], on [path[r:]]. *)
Definition is_dot (rest : list ascii) : bool :=
  match rest with
  | c :: [] => Ascii.eqb c dot
  | c :: c1 :: _ => Ascii.eqb c dot && Ascii.eqb c1 slash
  | [] => false
  end.

(** [path[r] == '.' && path[r+1] == '.' &&
     (r+2 == n || path[r+2] == '/')], on [path[r:]]. *)
Definition is_dotdot (rest : list ascii) : bool :=
  match rest with
  | c :: c1 :: [] => Ascii.eqb c dot && Ascii.eqb c1 dot
  | c :: c1 :: c2 :: _ =>
      Ascii.eqb c dot && Ascii.eqb c1 dot && Ascii.eqb c2 slash
  | _ => false
  end.

(** The main loop [for r < n { switch { ... } }] of [Clean]; [rest] is
    [path[r:]].  Every iteration consumes at least one byte, so
    [length rest] iterations are enough (lemma [clean_loop_finishes]);
    the function returns the unread input with the buffer. *)
Fixpoint clean_loop (fuel : nat) (rooted : bool)
         (rest out : list ascii) (dotdot : nat) : list ascii * list ascii :=
  match fuel with
  | 0 => (rest, out)
  | S fuel' =>
      match rest with
      | [] => (rest, out)
      | c :: rest1 =>
          if Ascii.eqb c slash then
            (* empty path element *)
            clean_loop fuel' rooted rest1 out dotdot
          else if is_dot rest then
            (* . element *)
            clean_loop fuel' rooted rest1 out dotdot
          else if is_dotdot rest then
            (* .. element: remove to last / *)
            let rest2 := tl rest1 in
            if dotdot <? length out then
              (* can backtrack *)
              let w := backtrack (length out) (length out - 1) dotdot out in
              clean_loop fuel' rooted rest2 (firstn w out) dotdot
            else if negb rooted then
              (* cannot backtrack, but not rooted, so append .. element *)
              let out1 := if 0 <? length out then out ++ [slash] else out in
              let out2 := out1 ++ [dot; dot] in
              clean_loop fuel' rooted rest2 out2 (length out2)
            else
              clean_loop fuel' rooted rest2 out dotdot
          else
            (* real path element: add slash if needed, copy element *)
            let out1 :=
              if (rooted && negb (length out =? 1))
                 || (negb rooted && negb (length out =? 0))
              then out ++ [slash] else out in
            let '(rest', out2) := copy_element rest out1 in
            clean_loop fuel' rooted rest' out2 dotdot
      end
  end.

(** [func Clean(path string) string] *)
Definition Clean (p : string) : string :=
  match bytes p with
  | [] => "."
  | c :: tail =>
      let rooted := Ascii.eqb c slash in
      let '(_, out) :=
        if rooted
        then clean_loop (length tail) rooted tail [slash] 1
        else clean_loop (length (c :: tail)) rooted (c :: tail) [] 0 in
      match out with
      | [] => "."
      | _ => of_bytes out
      end
  end.

(** The loop of [Join] that builds [buf]:
    [for _, e := range elem {
       if len(buf) > 0 || e != "" {
         if len(buf) > 0 { buf = append(buf, '/') }
         buf = append(buf, e...) } }] *)
Fixpoint join_buf (elem : list string) (buf : list ascii) : list ascii :=
  match elem with
  | [] => buf
  | e :: elem' =>
      if (0 <? length buf) || negb (String.eqb e "") then
        let buf1 := if 0 <? length buf then buf ++ [slash] else buf in
        join_buf elem' (buf1 ++ bytes e)
      else join_buf elem' buf
  end.

(** [func Join(elem ...string) string] *)
Definition Join (elem : list string) : string :=
  let size := fold_left (fun n e => n + String.length e) elem 0 in
  if size =? 0 then ""
  else Clean (of_bytes (join_buf elem [])).

(** The table of [TestClean] in the standard library's [path_test.go]
    (input, expected output). *)
Definition cleantests : list (string * string) :=
  [ (EmptyString, "."); ("abc", "abc"); ("abc/def", "abc/def");
    ("a/b/c", "a/b/c"); (".", "."); ("..", ".."); ("../..", "../..");
    ("../../abc", "../../abc"); ("/abc", "/abc"); ("/", "/");
    ("abc/", "abc"); ("abc/def/", "abc/def"); ("a/b/c/", "a/b/c");
    ("./", "."); ("../", ".."); ("../../", "../.."); ("/abc/", "/abc");
    ("abc//def//ghi", "abc/def/ghi"); ("//abc", "/abc"); ("///abc", "/abc");
    ("//abc//", "/abc"); ("abc//", "abc");
    ("abc/./def", "abc/def"); ("/./abc/def", "/abc/def"); ("abc/.", "abc");
    ("abc/def/ghi/../jkl", "abc/def/jkl"); ("abc/def/../ghi/../jkl", "abc/jkl");
    ("abc/def/..", "abc"); ("abc/def/../..", "."); ("/abc/def/../..", "/");
    ("abc/def/../../..", ".."); ("/abc/def/../../..", "/");
    ("abc/def/../../../ghi/jkl/../../../mno", "../../mno");
    ("abc/./../def", "def"); ("abc//./../def", "def");
    ("abc/../../././../def", "../../def") ].

(** The table of [TestJoin] (elements, expected output). *)
Definition jointests : list (list string * string) :=
  [ ([], EmptyString); ([EmptyString], EmptyString); (["a"], "a");
    (["a"; "b"], "a/b"); (["a"; EmptyString], "a"); ([EmptyString; "b"], "b");
    (["/"; "a"], "/a"); (["/"; EmptyString], "/"); (["a/"; "b"], "a/b");
    (["a/"; EmptyString], "a"); ([EmptyString; EmptyString], EmptyString) ].

End path.

(** ** Shapes of paths, for the statements about what [Path] returns *)

Module PathShape.

Import strings path.

(** The byte sequence ends with a slash. *)
Definition ends_slash (l : list ascii) : bool :=
  Ascii.eqb (last l dot) slash.

(** Two slashes in a row occur in the byte sequence. *)
Fixpoint has_double_slash (l : list ascii) : bool :=
  match l with
  | a :: t =>
      (Ascii.eqb a slash
       && match t with b :: _ => Ascii.eqb b slash | [] => false end)
      || has_double_slash t
  | [] => false
  end.

(** A path element that [Clean] copies as it is: not empty, without a
    slash, and neither [.] nor [..]. *)
Definition plain_element (e : string) : bool :=
  negb (existsb (fun c => Ascii.eqb c slash) (bytes e))
  && negb (String.eqb e EmptyString)
  && negb (String.eqb e ".")
  && negb (String.eqb e "..").

Definition plain_elements (es : list string) : bool :=
  match es with
  | [] => false
  | _ => forallb plain_element es
  end.

(** What the loop of [Clean] keeps true of its buffer [out] and of the
    mark [dotdot]: no two slashes in a row; a slash at the end only when
    the buffer is the root alone; the mark lies within the buffer, and the
    part of the buffer below the mark is of the same kind. *)
Definition clean_inv (rooted : bool) (out : list ascii) (dotdot : nat) : Prop :=
  has_double_slash out = false
  /\ (ends_slash out = true -> out = [slash] /\ rooted = true)
  /\ dotdot <= length out
  /\ (ends_slash (firstn dotdot out) = true ->
      firstn dotdot out = [slash] /\ rooted = true).

End PathShape.

(** ** What the package imports from outside

  [net/http], [context], [io] and [fmt] are outside the repository; the
  client is verified against any behaviour of theirs.  [World] is
  everything outside the [Client] object that a middleware closure or the
  transport can read or change (captured variables, the network).  A
  middleware is a Go function value: it may have effects on the world and
  it returns both a request and an error. *)

Class GoEnv : Type := {
  Request : Type;        (* http.Request  *)
  Response : Type;       (* http.Response *)
  Error : Type;          (* non-nil values of the interface type error *)
  HttpClient : Type;     (* values of *http.Client *)
  Ctx : Type;            (* context.Context *)
  Reader : Type;         (* non-nil values of io.Reader *)
  Any : Type;            (* values of any *)
  World : Type;
  (* http.NewRequest(method, url, body) *)
  http_NewRequest :
    string -> string -> option Reader -> option Request * option Error;
  (* http.NewRequestWithContext(ctx, method, url, body) *)
  http_NewRequestWithContext :
    Ctx -> string -> string -> option Reader -> option Request * option Error;
  (* the method Do(req) of *http.Client *)
  http_Client_Do :
    HttpClient -> option Request -> World ->
    (option Response * option Error) * World;
  (* fmt.Sprintf(format, a...) *)
  fmt_Sprintf : string -> list Any -> string
}.

Module http.
Definition MethodGet : string := "GET".
Definition MethodPost : string := "POST".
Definition MethodPut : string := "PUT".
Definition MethodDelete : string := "DELETE".
End http.

(** ** The client *)

Section Httpclient.

Context `{env : GoEnv}.

(** [type ClientMiddleware = func(r *http.Request) (r' *http.Request, err error)]
    (the source leaves the parameters unnamed) *)
Definition ClientMiddleware : Type :=
  option Request -> World -> (option Request * option Error) * World.

(** [type Client struct { client *http.Client; baseURL string;
                           mw []ClientMiddleware }] *)
Record Client : Type := mkClient {
  client : HttpClient;
  baseURL : string;
  mw : list ClientMiddleware
}.

(** Which of the two loops of [Do] makes a middleware call. *)
Inductive Level : Type := ClientLevel | CallScoped.

(** One call made by the body of [Do]: the [i]-th middleware of a level
    with the request it receives, or the transport with the request it
    is sent. *)
Inductive Call : Type :=
| MwCall (l : Level) (i : nat) (req : option Request)
| TransportCall (req : option Request).

(** The methods have a pointer receiver [c *Client].  The state is the
    object [c] points to, the world, and a ghost log [calls] to which the
    embedding appends an entry at each place where the body of [Do] calls
    a middleware or the transport. *)
Record State : Type := mkState {
  self : Client;
  world : World;
  calls : list Call
}.

Definition M (A : Type) : Type := State -> A * State.

Definition ret {A} (a : A) : M A := fun st => (a, st).

Definition bind {A B} (m : M A) (k : A -> M B) : M B :=
  fun st => let '(a, st') := m st in k a st'.

Notation "x <- m ;; k" := (bind m (fun x => k))
  (at level 61, m at next level, right associativity).
Notation "' p <- m ;; k" := (bind m (fun x => let 'p := x in k))
  (at level 61, p pattern, m at next level, right associativity).

(** Reading a field of [c]. *)
Definition field {A} (f : Client -> A) : M A := fun st => (f (self st), st).

(** Assigning [c.mw]. *)
Definition set_mw (l : list ClientMiddleware) : M unit :=
  fun st =>
    (tt, mkState (mkClient (client (self st)) (baseURL (self st)) l)
                 (world st) (calls st)).

(** Calling a function of the world, with the log entry of the call. *)
Definition call {A} (entry : Call) (f : World -> A * World) : M A :=
  fun st =>
    let '(a, w) := f (world st) in
    (a, mkState (self st) w (calls st ++ [entry])).

(** [func New(client *http.Client, base string) *Client] *)
Definition New (cl : HttpClient) (base : string) : Client :=
  mkClient cl base nil.

(** [func (c *Client) Use(mws ...ClientMiddleware) {
       c.mw = append(c.mw, mws...) }] *)
Definition Use (mws : list ClientMiddleware) : M unit :=
  old <- field mw ;;
  set_mw (old ++ mws).

(** One of the two loops of [Do],
    [for _, mw := range mws {
       var err error
       req, err = mw(req)
       if err != nil { return nil, err } }]:
    [inr err] is the early return, [inl req] is the request the loop
    ends with.  [i] is the index of the head of [mws] in the slice being
    ranged over. *)
Fixpoint range_mw (l : Level) (i : nat) (mws : list ClientMiddleware)
         (req : option Request) : M (option Request + Error) :=
  match mws with
  | [] => ret (inl req)
  | f :: mws' =>
      '(req', err) <- call (MwCall l i req) (f req) ;;
      match err with
      | Some e => ret (inr e)
      | None => range_mw l (S i) mws' req'
      end
  end.

(** [func (c *Client) Do(req *http.Request, rmw []ClientMiddleware)],
    returning a [*http.Response] and an [error]. *)
Definition Do (req : option Request) (rmw : list ClientMiddleware)
  : M (option Response * option Error) :=
  cmw <- field mw ;;
  r <- range_mw ClientLevel 0 cmw req ;;
  match r with
  | inr e => ret (None, Some e)
  | inl req1 =>
      r <- range_mw CallScoped 0 rmw req1 ;;
      match r with
      | inr e => ret (None, Some e)
      | inl req2 =>
          cl <- field client ;;
          call (TransportCall req2) (http_Client_Do cl req2)
      end
  end.

(** [func (c *Client) Get(url string, mw ...ClientMiddleware) {
     req, err := http.NewRequest(http.MethodGet, url, nil)
     if err != nil { return nil, err }
     return c.Do(req, mw) }] *)
Definition Get (url : string) (mws : list ClientMiddleware)
  : M (option Response * option Error) :=
  let '(req, err) := http_NewRequest http.MethodGet url None in
  match err with
  | Some e => ret (None, Some e)
  | None => Do req mws
  end.

(** [func (c *Client) GetCtx(ctx context.Context, url string, mw ...ClientMiddleware) {
     req, err := http.NewRequestWithContext(ctx, http.MethodGet, url, nil)
     if err != nil { return nil, err }
     return c.Do(req, mw) }] *)
Definition GetCtx (ctx : Ctx) (url : string) (mws : list ClientMiddleware)
  : M (option Response * option Error) :=
  let '(req, err) := http_NewRequestWithContext ctx http.MethodGet url None in
  match err with
  | Some e => ret (None, Some e)
  | None => Do req mws
  end.

(** [func (c *Client) Post(url string, payload io.Reader, mw ...ClientMiddleware) {
     req, err := http.NewRequest(http.MethodPost, url, payload)
     if err != nil { return nil, err }
     return c.Do(req, mw) }] *)
Definition Post (url : string) (payload : option Reader)
           (mws : list ClientMiddleware)
  : M (option Response * option Error) :=
  let '(req, err) := http_NewRequest http.MethodPost url payload in
  match err with
  | Some e => ret (None, Some e)
  | None => Do req mws
  end.

(** [func (c *Client) PostCtx(ctx context.Context, url string, payload io.Reader, mw ...ClientMiddleware) {
     req, err := http.NewRequestWithContext(ctx, http.MethodPost, url, payload)
     if err != nil { return nil, err }
     return c.Do(req, mw) }] *)
Definition PostCtx (ctx : Ctx) (url : string) (payload : option Reader)
           (mws : list ClientMiddleware)
  : M (option Response * option Error) :=
  let '(req, err) := http_NewRequestWithContext ctx http.MethodPost url payload in
  match err with
  | Some e => ret (None, Some e)
  | None => Do req mws
  end.

(** [func (c *Client) Put(url string, payload io.Reader, mw ...ClientMiddleware) {
     req, err := http.NewRequest(http.MethodPut, url, payload)
     if err != nil { return nil, err }
     return c.Do(req, mw) }] *)
Definition Put (url : string) (payload : option Reader)
           (mws : list ClientMiddleware)
  : M (option Response * option Error) :=
  let '(req, err) := http_NewRequest http.MethodPut url payload in
  match err with
  | Some e => ret (None, Some e)
  | None => Do req mws
  end.

(** [func (c *Client) PutCtx(ctx context.Context, url string, payload io.Reader, mw ...ClientMiddleware) {
     req, err := http.NewRequestWithContext(ctx, http.MethodPut, url, payload)
     if err != nil { return nil, err }
     return c.Do(req, mw) }] *)
Definition PutCtx (ctx : Ctx) (url : string) (payload : option Reader)
           (mws : list ClientMiddleware)
  : M (option Response * option Error) :=
  let '(req, err) := http_NewRequestWithContext ctx http.MethodPut url payload in
  match err with
  | Some e => ret (None, Some e)
  | None => Do req mws
  end.

(** [func (c *Client) Delete(url string, mw ...ClientMiddleware) {
     req, err := http.NewRequest(http.MethodDelete, url, nil)
     if err != nil { return nil, err }
     return c.Do(req, mw) }] *)
Definition Delete (url : string) (mws : list ClientMiddleware)
  : M (option Response * option Error) :=
  let '(req, err) := http_NewRequest http.MethodDelete url None in
  match err with
  | Some e => ret (None, Some e)
  | None => Do req mws
  end.

(** [func (c *Client) DeleteCtx(ctx context.Context, url string, mw ...ClientMiddleware) {
     req, err := http.NewRequestWithContext(ctx, http.MethodDelete, url, nil)
     if err != nil { return nil, err }
     return c.Do(req, mw) }] *)
Definition DeleteCtx (ctx : Ctx) (url : string) (mws : list ClientMiddleware)
  : M (option Response * option Error) :=
  let '(req, err) := http_NewRequestWithContext ctx http.MethodDelete url None in
  match err with
  | Some e => ret (None, Some e)
  | None => Do req mws
  end.

(** [func (c *Client) Path(url string) string]: reads [c.baseURL] only. *)
Definition Path (c : Client) (url : string) : string :=
  if strings.HasPrefix url "http" then url
  else
    let base := strings.TrimRight (baseURL c) "/" in
    if String.eqb url "" then base
    else path.Join [base; strings.TrimLeft url "/"].

(** [func (c *Client) Pathf(url string, v ...any) string] *)
Definition Pathf (c : Client) (url : string) (v : list Any) : string :=
  let url := fmt_Sprintf url v in
  Path c url.

(** A call of one of the eight verb helpers, with its arguments. *)
Inductive HelperCall : Type :=
| CGet (url : string) (mws : list ClientMiddleware)
| CGetCtx (ctx : Ctx) (url : string) (mws : list ClientMiddleware)
| CPost (url : string) (payload : option Reader)
        (mws : list ClientMiddleware)
| CPostCtx (ctx : Ctx) (url : string) (payload : option Reader)
           (mws : list ClientMiddleware)
| CPut (url : string) (payload : option Reader)
       (mws : list ClientMiddleware)
| CPutCtx (ctx : Ctx) (url : string) (payload : option Reader)
          (mws : list ClientMiddleware)
| CDelete (url : string) (mws : list ClientMiddleware)
| CDeleteCtx (ctx : Ctx) (url : string) (mws : list ClientMiddleware).

Definition run_helper (h : HelperCall)
  : M (option Response * option Error) :=
  match h with
  | CGet url mws => Get url mws
  | CGetCtx ctx url mws => GetCtx ctx url mws
  | CPost url payload mws => Post url payload mws
  | CPostCtx ctx url payload mws => PostCtx ctx url payload mws
  | CPut url payload mws => Put url payload mws
  | CPutCtx ctx url payload mws => PutCtx ctx url payload mws
  | CDelete url mws => Delete url mws
  | CDeleteCtx ctx url mws => DeleteCtx ctx url mws
  end.

(** The request constructor a helper calls first, at its arguments. *)
Definition construction (h : HelperCall) : option Request * option Error :=
  match h with
  | CGet url _ => http_NewRequest http.MethodGet url None
  | CGetCtx ctx url _ =>
      http_NewRequestWithContext ctx http.MethodGet url None
  | CPost url payload _ => http_NewRequest http.MethodPost url payload
  | CPostCtx ctx url payload _ =>
      http_NewRequestWithContext ctx http.MethodPost url payload
  | CPut url payload _ => http_NewRequest http.MethodPut url payload
  | CPutCtx ctx url payload _ =>
      http_NewRequestWithContext ctx http.MethodPut url payload
  | CDelete url _ => http_NewRequest http.MethodDelete url None
  | CDeleteCtx ctx url _ =>
      http_NewRequestWithContext ctx http.MethodDelete url None
  end.

(** A call of any method of [*Client], and what it returns. *)
Inductive MethodCall : Type :=
| MUse (mws : list ClientMiddleware)
| MHelper (h : HelperCall)
| MDo (req : option Request) (rmw : list ClientMiddleware)
| MPath (url : string)
| MPathf (url : string) (v : list Any).

Inductive Returned : Type :=
| RNothing
| RResponse (r : option Response * option Error)
| RString (s : string).

Definition run_method (m : MethodCall) : M Returned :=
  match m with
  | MUse mws => _ <- Use mws ;; ret RNothing
  | MHelper h => r <- run_helper h ;; ret (RResponse r)
  | MDo req rmw => r <- Do req rmw ;; ret (RResponse r)
  | MPath url => c <- field (fun c => c) ;; ret (RString (Path c url))
  | MPathf url v => c <- field (fun c => c) ;; ret (RString (Pathf c url v))
  end.

(** *** Vocabulary of the statements about [Do] *)

(** [threads mws req w ins req' w']: applied in order, starting from the
    request [req] in the world [w], every middleware of [mws] returns a
    nil error; [ins] lists the request each of them receives, [req'] and
    [w'] are the request and the world after the last one. *)
Inductive threads :
  list ClientMiddleware -> option Request -> World ->
  list (option Request) -> option Request -> World -> Prop :=
| threads_nil : forall req w, threads [] req w [] req w
| threads_cons : forall (f : ClientMiddleware) mws req w req1 w1 ins req' w',
    f req w = ((req1, None), w1) ->
    threads mws req1 w1 ins req' w' ->
    threads (f :: mws) req w (req :: ins) req' w'.

(** The log entries of consecutive calls to the middleware number
    [i], [i+1], ... of level [l], on the requests [ins]. *)
Fixpoint entries (l : Level) (i : nat) (ins : list (option Request))
  : list Call :=
  match ins with
  | [] => []
  | r :: ins' => MwCall l i r :: entries l (S i) ins'
  end.

(** The same for positions [k], [k+1], ... of the whole pipeline
    [c.mw ++ rmw], where [m] is [len(c.mw)]: position [k < m] is the
    [k]-th client-level middleware, position [k >= m] is the
    [(k - m)]-th call-scoped one. *)
Fixpoint pipeline_entries (m k : nat) (ins : list (option Request))
  : list Call :=
  match ins with
  | [] => []
  | r :: ins' =>
      (if k <? m then MwCall ClientLevel k r
       else MwCall CallScoped (k - m) r)
      :: pipeline_entries m (S k) ins'
  end.

(** *** Vocabulary of the further statements *)

(** The middleware of [mws] applied in order with the short circuit of
    [Do], without the client and without the call log: the request after
    the last one, or the first error, and the world. *)
Fixpoint pipeline (mws : list ClientMiddleware) (req : option Request)
         (w : World) : (option Request + Error) * World :=
  match mws with
  | [] => (inl req, w)
  | f :: mws' =>
      let '((req', err), w') := f req w in
      match err with
      | Some e => (inr e, w')
      | None => pipeline mws' req' w'
      end
  end.

(** Dispatch as one pipeline followed by the transport [cl]. *)
Definition dispatch (cl : HttpClient) (mws : list ClientMiddleware)
           (req : option Request) (w : World)
  : (option Response * option Error) * World :=
  match pipeline mws req w with
  | (inr e, w') => ((None, Some e), w')
  | (inl req', w') => http_Client_Do cl req' w'
  end.

(** Successive calls [c.Use(b1...)], [c.Use(b2...)], ... *)
Definition register (batches : list (list ClientMiddleware)) (st : State)
  : State :=
  fold_left (fun s mws => snd (Use mws s)) batches st.

(** The call-supplied middleware of a helper call. *)
Definition scoped (h : HelperCall) : list ClientMiddleware :=
  match h with
  | CGet _ mws | CGetCtx _ _ mws | CPost _ _ mws | CPostCtx _ _ _ mws
  | CPut _ _ mws | CPutCtx _ _ _ mws | CDelete _ mws | CDeleteCtx _ _ mws =>
      mws
  end.

End Httpclient.

(** ** The client in a store its callbacks can reach

    In the section above a middleware acts on a world that does not hold
    the client.  A Go closure can capture the client [c] and call its
    exported methods while [Do] runs.  To speak of that, the client object
    lives here in a heap handed to every callback: [c.mw] holds references
    to closures, and the code of a closure, like that of the transport, is
    a function of the whole heap.  The methods are the same code over this
    state. *)

Module Store.

Section Store.

Context `{env : GoEnv}.

(** A middleware value: a reference to a closure. *)
Definition MwRef : Type := nat.

(** The object [c] points to (its three fields) and everything else. *)
Record Heap : Type := mkHeap {
  h_client : HttpClient;
  h_baseURL : string;
  h_mw : list MwRef;
  h_world : World
}.

(** The fields of the client. *)
Definition client_fields (h : Heap) : HttpClient * string * list MwRef :=
  (h_client h, h_baseURL h, h_mw h).

(** The code of the closures and of the transport. *)
Variable code :
  MwRef -> option Request -> Heap -> (option Request * option Error) * Heap.
Variable send :
  HttpClient -> option Request -> Heap ->
  (option Response * option Error) * Heap.

(** [func New(client *http.Client, base string) *Client], allocated in
    the world [w]. *)
Definition New (cl : HttpClient) (base : string) (w : World) : Heap :=
  mkHeap cl base nil w.

(** [func (c *Client) Use(mws ...ClientMiddleware) {
       c.mw = append(c.mw, mws...) }] *)
Definition Use (mws : list MwRef) (h : Heap) : unit * Heap :=
  (tt, mkHeap (h_client h) (h_baseURL h) (h_mw h ++ mws) (h_world h)).

(** One loop of [Do] over a slice value:
    [for _, mw := range mws {
       var err error
       req, err = mw(req)
       if err != nil { return nil, err } }] *)
Fixpoint range_mw (mws : list MwRef) (req : option Request) (h : Heap)
  : (option Request + Error) * Heap :=
  match mws with
  | [] => (inl req, h)
  | f :: mws' =>
      let '((req', err), h') := code f req h in
      match err with
      | Some e => (inr e, h')
      | None => range_mw mws' req' h'
      end
  end.

(** [func (c *Client) Do(req *http.Request, rmw []ClientMiddleware)].
    The range expression [c.mw] is evaluated once, before the first
    iteration: the loop runs over the slice as it is then, whatever the
    callbacks assign to [c.mw] meanwhile.  [c.client] is read after the
    loops. *)
Definition Do (req : option Request) (rmw : list MwRef) (h : Heap)
  : (option Response * option Error) * Heap :=
  let cmw := h_mw h in
  let '(r, h1) := range_mw cmw req h in
  match r with
  | inr e => ((None, Some e), h1)
  | inl req1 =>
      let '(r, h2) := range_mw rmw req1 h1 in
      match r with
      | inr e => ((None, Some e), h2)
      | inl req2 => send (h_client h2) req2 h2
      end
  end.

(** The verb helpers, as in the source:
    [req, err := http.NewRequest(method, url, body)
     if err != nil { return nil, err }
     return c.Do(req, mw)] *)
Definition Get (url : string) (mws : list MwRef) (h : Heap)
  : (option Response * option Error) * Heap :=
  let '(req, err) := http_NewRequest http.MethodGet url None in
  match err with
  | Some e => ((None, Some e), h)
  | None => Do req mws h
  end.

Definition GetCtx (ctx : Ctx) (url : string) (mws : list MwRef) (h : Heap)
  : (option Response * option Error) * Heap :=
  let '(req, err) := http_NewRequestWithContext ctx http.MethodGet url None in
  match err with
  | Some e => ((None, Some e), h)
  | None => Do req mws h
  end.

Definition Post (url : string) (payload : option Reader)
           (mws : list MwRef) (h : Heap)
  : (option Response * option Error) * Heap :=
  let '(req, err) := http_NewRequest http.MethodPost url payload in
  match err with
  | Some e => ((None, Some e), h)
  | None => Do req mws h
  end.

Definition PostCtx (ctx : Ctx) (url : string) (payload : option Reader)
           (mws : list MwRef) (h : Heap)
  : (option Response * option Error) * Heap :=
  let '(req, err) :=
    http_NewRequestWithContext ctx http.MethodPost url payload in
  match err with
  | Some e => ((None, Some e), h)
  | None => Do req mws h
  end.

Definition Put (url : string) (payload : option Reader)
           (mws : list MwRef) (h : Heap)
  : (option Response * option Error) * Heap :=
  let '(req, err) := http_NewRequest http.MethodPut url payload in
  match err with
  | Some e => ((None, Some e), h)
  | None => Do req mws h
  end.

Definition PutCtx (ctx : Ctx) (url : string) (payload : option Reader)
           (mws : list MwRef) (h : Heap)
  : (option Response * option Error) * Heap :=
  let '(req, err) :=
    http_NewRequestWithContext ctx http.MethodPut url payload in
  match err with
  | Some e => ((None, Some e), h)
  | None => Do req mws h
  end.

Definition Delete (url : string) (mws : list MwRef) (h : Heap)
  : (option Response * option Error) * Heap :=
  let '(req, err) := http_NewRequest http.MethodDelete url None in
  match err with
  | Some e => ((None, Some e), h)
  | None => Do req mws h
  end.

Definition DeleteCtx (ctx : Ctx) (url : string) (mws : list MwRef) (h : Heap)
  : (option Response * option Error) * Heap :=
  let '(req, err) :=
    http_NewRequestWithContext ctx http.MethodDelete url None in
  match err with
  | Some e => ((None, Some e), h)
  | None => Do req mws h
  end.

(** [func (c *Client) Path(url string) string] *)
Definition Path (url : string) (h : Heap) : string :=
  if strings.HasPrefix url "http" then url
  else
    let base := strings.TrimRight (h_baseURL h) "/" in
    if String.eqb url "" then base
    else path.Join [base; strings.TrimLeft url "/"].

(** [func (c *Client) Pathf(url string, v ...any) string] *)
Definition Pathf (url : string) (v : list Any) (h : Heap) : string :=
  let url := fmt_Sprintf url v in
  Path url h.

(** A call of any method of the client. *)
Inductive MethodCall : Type :=
| MUse (mws : list MwRef)
| MGet (url : string) (mws : list MwRef)
| MGetCtx (ctx : Ctx) (url : string) (mws : list MwRef)
| MPost (url : string) (payload : option Reader) (mws : list MwRef)
| MPostCtx (ctx : Ctx) (url : string) (payload : option Reader)
           (mws : list MwRef)
| MPut (url : string) (payload : option Reader) (mws : list MwRef)
| MPutCtx (ctx : Ctx) (url : string) (payload : option Reader)
          (mws : list MwRef)
| MDelete (url : string) (mws : list MwRef)
| MDeleteCtx (ctx : Ctx) (url : string) (mws : list MwRef)
| MDo (req : option Request) (rmw : list MwRef)
| MPath (url : string)
| MPathf (url : string) (v : list Any).

(** The heap after the call. *)
Definition after (m : MethodCall) (h : Heap) : Heap :=
  match m with
  | MUse mws => snd (Use mws h)
  | MGet url mws => snd (Get url mws h)
  | MGetCtx ctx url mws => snd (GetCtx ctx url mws h)
  | MPost url payload mws => snd (Post url payload mws h)
  | MPostCtx ctx url payload mws => snd (PostCtx ctx url payload mws h)
  | MPut url payload mws => snd (Put url payload mws h)
  | MPutCtx ctx url payload mws => snd (PutCtx ctx url payload mws h)
  | MDelete url mws => snd (Delete url mws h)
  | MDeleteCtx ctx url mws => snd (DeleteCtx ctx url mws h)
  | MDo req rmw => snd (Do req rmw h)
  | MPath url => let _ := Path url h in h
  | MPathf url v => let _ := Pathf url v h in h
  end.

End Store.

(** The frame property worded for every call of [Do]: whatever the
    callbacks are, the fields of the client after [Do] are those before. *)
Definition Do_never_changes_client `{env : GoEnv} : Prop :=
  forall code send (req : option Request) (rmw : list MwRef) (h : Heap),
    client_fields (snd (Do code send req rmw h)) = client_fields h.

End Store.

(** ** [DecodeJSON] and the decoder of [encoding/json]

  [encoding/json] is outside the repository.  The [Decode] method of its
  [Decoder] works in two phases, which is all the model keeps of it: [readValue]
  reads one complete, syntactically valid JSON value off the stream and
  fails (read error, [io.EOF], [io.ErrUnexpectedEOF], a syntax error)
  before the target is touched; [unmarshal] then stores that value into
  the target through the pointer it was given and reports the first
  value that did not fit its destination. *)

Class JsonEnv `{env : GoEnv} : Type := {
  Body : Type;                         (* values of io.ReadCloser *)
  Response_Body : Response -> Body;    (* the field r.Body *)
  Value : Type;                        (* a complete JSON value *)
  (* the method readValue of *json.Decoder, on the stream it wraps *)
  json_readValue : Body -> World -> (Value + Error) * World
}.

(** A type [T] the decoder can fill: its zero value and what [unmarshal]
  does to a variable of type [T] (new contents, error). *)
Class Target `{jenv : JsonEnv} (T : Type) : Type := {
  zero_value : T;
  json_unmarshal : Value -> T -> T * option Error
}.

Section DecodeJSON.

Context `{jenv : JsonEnv} {T : Type} `{tgt : !Target T}.

(** [decoder.Decode(&v)] on the stream [body], for a variable holding
    [v]: the new contents of the variable and the error. *)
Definition Decoder_Decode (body : Body) (v : T)
  : World -> (T * option Error) * World :=
  fun w =>
    match json_readValue body w with
    | (inr e, w') => ((v, Some e), w')
    | (inl val, w') => (json_unmarshal val v, w')
    end.

(** [func DecodeJSON[T any](r *http.Response) (T, error) {
       var zero T
       decoder := json.NewDecoder(r.Body)
       if err := decoder.Decode(&zero); err != nil { return zero, err }
       return zero, nil }]
    The local variable [zero] is passed by address: what is returned is
    its contents after [Decode]. *)
Definition DecodeJSON (r : Response) : World -> (T * option Error) * World :=
  fun w =>
    let zero := zero_value in
    let '((zero, err), w') := Decoder_Decode (Response_Body r) zero w in
    match err with
    | Some e => ((zero, Some e), w')
    | None => ((zero, None), w')
    end.

(** The property the specification words for every decode failure: a
    non-nil error always comes with the zero value of [T]. *)
Definition zero_on_every_failure : Prop :=
  forall (r : Response) (w w' : World) (v : T) (e : Error),
    DecodeJSON r w = ((v, Some e), w') -> v = zero_value.

End DecodeJSON.

(** ** A concrete environment

  One instance of the interfaces above, used to run the definitions on
  concrete inputs: requests are the lists of marks middleware put on
  them, the world is a trace that middleware and the transport write to
  themselves (call counting) and the unread bytes of the response body. *)

Module Fixture.

Inductive TestError : Type :=
| ErrMissingScheme        (* url.Parse: missing protocol scheme *)
| ErrMiddleware (n : nat)
| ErrNoHost               (* http: no Host in request URL *)
| ErrEOF                  (* io.EOF *)
| ErrUnexpectedEOF        (* io.ErrUnexpectedEOF *)
| ErrSyntax               (* a json.SyntaxError *)
| ErrUnmarshalType (field : string).   (* a json.UnmarshalTypeError *)

Record TestWorld : Type := mkWorld {
  trace : list string;
  unread : string
}.

Definition quote : string := String (ascii_of_nat 34) EmptyString.

(** The body the fixture's transport answers with: [{"a":1}]. *)
Definition reply : string := "{" ++ quote ++ "a" ++ quote ++ ":1}".

(** [http.NewRequest] of the fixture: fails on a URL that starts with a
    colon, as [url.Parse] does (missing protocol scheme). *)
Definition new_request (method url : string) (body : option string)
  : option (list string) * option TestError :=
  if strings.HasPrefix url ":" then (None, Some ErrMissingScheme)
  else (Some [method; url], None).

Definition send (cl : unit) (req : option (list string)) (w : TestWorld)
  : (option nat * option TestError) * TestWorld :=
  match req with
  | None => ((None, Some ErrNoHost), mkWorld (trace w ++ ["send"]) (unread w))
  | Some _ => ((Some 200, None), mkWorld (trace w ++ ["send"]) reply)
  end.

(** [fmt.Sprintf] for the verb [%d] on naturals; other bytes are copied. *)
Fixpoint sprintf (format : list ascii) (a : list nat) : list ascii :=
  match format with
  | c :: rest =>
      match rest with
      | d :: rest' =>
          if Ascii.eqb c "%" && Ascii.eqb d "d" then
            match a with
            | n :: a' =>
                strings.bytes (NilEmpty.string_of_uint (Nat.to_uint n))
                ++ sprintf rest' a'
            | [] => strings.bytes "%!d(MISSING)" ++ sprintf rest' []
            end
          else c :: sprintf rest a
      | [] => [c]
      end
  | [] => []
  end.

#[export] Instance test_env : GoEnv := {|
  Request := list string;
  Response := nat;
  Error := TestError;
  HttpClient := unit;
  Ctx := unit;
  Reader := string;
  Any := nat;
  World := TestWorld;
  http_NewRequest := new_request;
  http_NewRequestWithContext := fun _ => new_request;
  http_Client_Do := send;
  fmt_Sprintf := fun format a => strings.of_bytes (sprintf (strings.bytes format) a)
|}.

(** A middleware that writes [name] to the trace and marks the request. *)
Definition mark (name : string) : ClientMiddleware :=
  fun req w =>
    ((option_map (fun r => r ++ [name]) req, None),
     mkWorld (trace w ++ [name]) (unread w)).

(** A middleware that writes [name] to the trace and fails. *)
Definition failing (name : string) (n : nat) : ClientMiddleware :=
  fun req w =>
    ((None, Some (ErrMiddleware n)), mkWorld (trace w ++ [name]) (unread w)).

Definition start (c : Client) : State :=
  mkState c (mkWorld [] EmptyString) [].

(** *** A reader for a fragment of JSON

    Objects, arrays, strings without escapes, integers and the literals
    [null], [true], [false], with blanks between tokens.  Anything else
    is answered with [ErrSyntax]; for valid JSON outside the fragment
    (fractions, exponents, escapes) Go's scanner would accept it. *)

#[warnings="-register-all"] Inductive json : Type :=
| JNull
| JBool (b : bool)
| JNum (n : Z)
| JStr (s : string)
| JArr (items : list json)
| JObj (members : list (string * json)).

Definition is_space (c : ascii) : bool :=
  Ascii.eqb c " " || Ascii.eqb c "009" || Ascii.eqb c "010" || Ascii.eqb c "013".

Definition is_digit (c : ascii) : bool :=
  (48 <=? nat_of_ascii c) && (nat_of_ascii c <=? 57).

Fixpoint skip_space (s : list ascii) : list ascii :=
  match s with
  | c :: s' => if is_space c then skip_space s' else s
  | [] => []
  end.

(** The bytes up to the closing quote, and what follows it. *)
Fixpoint read_string (s acc : list ascii)
  : (string * list ascii) + TestError :=
  match s with
  | [] => inr ErrUnexpectedEOF
  | c :: s' =>
      if Ascii.eqb c (ascii_of_nat 34) then inl (strings.of_bytes acc, s')
      else if Ascii.eqb c (ascii_of_nat 92) then inr ErrSyntax
      else read_string s' (acc ++ [c])
  end.

Fixpoint read_digits (s : list ascii) (acc : Z) : Z * list ascii :=
  match s with
  | c :: s' =>
      if is_digit c
      then read_digits s' (10 * acc + Z.of_nat (nat_of_ascii c - 48))%Z
      else (acc, s)
  | [] => (acc, [])
  end.

Definition read_literal (lit : string) (v : json) (s : list ascii)
  : (json * list ascii) + TestError :=
  let l := strings.bytes lit in
  if strings.HasPrefix (strings.of_bytes s) lit
  then inl (v, skipn (length l) s)
  else if Nat.ltb (length s) (length l) then inr ErrUnexpectedEOF
  else inr ErrSyntax.

Definition read_number (neg : bool) (s : list ascii)
  : (json * list ascii) + TestError :=
  match s with
  | [] => inr ErrUnexpectedEOF
  | c :: _ =>
      if is_digit c then
        let '(n, rest) := read_digits s 0%Z in
        match rest with
        | d :: _ =>
            if Ascii.eqb d "." || Ascii.eqb d "e" || Ascii.eqb d "E"
            then inr ErrSyntax
            else inl (JNum (if neg then - n else n)%Z, rest)
        | [] => inl (JNum (if neg then - n else n)%Z, rest)
        end
      else inr ErrSyntax
  end.

Fixpoint read_value (fuel : nat) (s : list ascii) {struct fuel}
  : (json * list ascii) + TestError :=
  match fuel with
  | 0 => inr ErrSyntax
  | S fuel' =>
      match skip_space s with
      | [] => inr ErrUnexpectedEOF
      | c :: s1 =>
          if Ascii.eqb c "{" then
            match skip_space s1 with
            | [] => inr ErrUnexpectedEOF
            | c1 :: s2 =>
                if Ascii.eqb c1 "}" then inl (JObj [], s2)
                else read_members fuel' (c1 :: s2) []
            end
          else if Ascii.eqb c "[" then
            match skip_space s1 with
            | [] => inr ErrUnexpectedEOF
            | c1 :: s2 =>
                if Ascii.eqb c1 "]" then inl (JArr [], s2)
                else read_items fuel' (c1 :: s2) []
            end
          else if Ascii.eqb c (ascii_of_nat 34) then
            match read_string s1 [] with
            | inl (str, rest) => inl (JStr str, rest)
            | inr e => inr e
            end
          else if Ascii.eqb c "-" then read_number true s1
          else if is_digit c then read_number false (c :: s1)
          else if Ascii.eqb c "n" then read_literal "null" JNull (c :: s1)
          else if Ascii.eqb c "t" then
            read_literal "true" (JBool true) (c :: s1)
          else if Ascii.eqb c "f" then
            read_literal "false" (JBool false) (c :: s1)
          else inr ErrSyntax
      end
  end

with read_members (fuel : nat) (s : list ascii)
                  (acc : list (string * json)) {struct fuel}
  : (json * list ascii) + TestError :=
  match fuel with
  | 0 => inr ErrSyntax
  | S fuel' =>
      match skip_space s with
      | [] => inr ErrUnexpectedEOF
      | c :: s1 =>
          if Ascii.eqb c (ascii_of_nat 34) then
            match read_string s1 [] with
            | inr e => inr e
            | inl (key, s2) =>
                match skip_space s2 with
                | [] => inr ErrUnexpectedEOF
                | c2 :: s3 =>
                    if Ascii.eqb c2 ":" then
                      match read_value fuel' s3 with
                      | inr e => inr e
                      | inl (v, s4) =>
                          match skip_space s4 with
                          | [] => inr ErrUnexpectedEOF
                          | c4 :: s5 =>
                              if Ascii.eqb c4 "," then
                                read_members fuel' s5 (acc ++ [(key, v)])
                              else if Ascii.eqb c4 "}" then
                                inl (JObj (acc ++ [(key, v)]), s5)
                              else inr ErrSyntax
                          end
                      end
                    else inr ErrSyntax
                end
            end
          else inr ErrSyntax
      end
  end

with read_items (fuel : nat) (s : list ascii) (acc : list json)
                {struct fuel}
  : (json * list ascii) + TestError :=
  match fuel with
  | 0 => inr ErrSyntax
  | S fuel' =>
      match read_value fuel' s with
      | inr e => inr e
      | inl (v, s1) =>
          match skip_space s1 with
          | [] => inr ErrUnexpectedEOF
          | c :: s2 =>
              if Ascii.eqb c "," then read_items fuel' s2 (acc ++ [v])
              else if Ascii.eqb c "]" then inl (JArr (acc ++ [v]), s2)
              else inr ErrSyntax
          end
      end
  end.

(** [readValue] on the single response body of the fixture's world: an
    exhausted stream is [io.EOF]; a failed read uses the stream up. *)
Definition read_body (_ : unit) (w : TestWorld)
  : (json + TestError) * TestWorld :=
  match skip_space (strings.bytes (unread w)) with
  | [] => (inr ErrEOF, mkWorld (trace w) EmptyString)
  | s =>
      match read_value (S (length s)) s with
      | inl (v, rest) => (inl v, mkWorld (trace w) (strings.of_bytes rest))
      | inr e => (inr e, mkWorld (trace w) EmptyString)
      end
  end.

#[export] Instance test_json : JsonEnv := {|
  Body := unit;
  Response_Body := fun _ => tt;
  Value := json;
  json_readValue := read_body
|}.

(** The Go type [struct { A int; B int }] and what [unmarshal] does to
    it, as documented for [json.Unmarshal]: object keys are matched to
    field names (exactly or ignoring case), unknown keys are skipped,
    [null] leaves a field alone, and a value that does not fit its field
    is skipped, the first such mismatch being the error returned once the
    whole value has been stored. *)
Record AB : Type := mkAB { A : Z; B : Z }.

Definition fits_int (n : Z) : bool :=
  ((- 2 ^ 63 <=? n) && (n <? 2 ^ 63))%Z.

Definition save_error (saved : option TestError) (e : TestError)
  : option TestError :=
  match saved with
  | None => Some e
  | Some _ => saved
  end.

Definition store_member (st : AB * option TestError) (m : string * json)
  : AB * option TestError :=
  let '(v, saved) := st in
  let '(key, x) := m in
  let set_field (n : Z) : option AB :=
    if String.eqb key "A" || String.eqb key "a" then Some (mkAB n (B v))
    else if String.eqb key "B" || String.eqb key "b" then Some (mkAB (A v) n)
    else None in
  match set_field 0%Z with
  | None => st
  | Some _ =>
      match x with
      | JNull => st
      | JNum n =>
          if fits_int n
          then (match set_field n with Some v' => v' | None => v end, saved)
          else (v, save_error saved (ErrUnmarshalType key))
      | _ => (v, save_error saved (ErrUnmarshalType key))
      end
  end.

Definition unmarshal_AB (val : json) (v : AB) : AB * option TestError :=
  match val with
  | JNull => (v, None)
  | JObj members => fold_left store_member members (v, None)
  | _ => (v, Some (ErrUnmarshalType EmptyString))
  end.

#[export] Instance target_AB : Target AB := {|
  zero_value := mkAB 0 0;
  json_unmarshal := unmarshal_AB
|}.

Definition with_body (body : string) : TestWorld := mkWorld [] body.

(** The body [{"a":] : cut off inside the object. *)
Definition truncated : string := "{" ++ quote ++ "a" ++ quote ++ ":".

(** The body [{"a":1,"b":"x"}] : well-formed, with a string where field
    [B] needs a number. *)
Definition mismatched : string :=
  "{" ++ quote ++ "a" ++ quote ++ ":1,"
      ++ quote ++ "b" ++ quote ++ ":" ++ quote ++ "x" ++ quote ++ "}".

(** A client built with [New] on which two middleware were registered
    with [Use], in a fresh world. *)
Definition registered : State :=
  snd (Use [mark "m1"; mark "m2"] (start (New tt "http://base/"))).

End Fixture.

(** ** A concrete store

    Closure 0 captures the client and registers closure 1 on it with
    [c.Use] while it runs; the other closures only write their number to
    the trace and mark the request. *)

Module StoreFixture.

Import Fixture.

Definition note (name : string) (req : option (list string)) (h : Store.Heap)
  : (option (list string) * option TestError) * Store.Heap :=
  ((option_map (fun r => r ++ [name]) req, None),
   Store.mkHeap (Store.h_client h) (Store.h_baseURL h) (Store.h_mw h)
                (mkWorld (trace (Store.h_world h) ++ [name])
                         (unread (Store.h_world h)))).

(** [func(r *http.Request) (r' *http.Request, err error) {
       c.Use(late); return r, nil }], where [late] is closure 1. *)
Definition registering (r : Store.MwRef) (req : option (list string))
           (h : Store.Heap)
  : (option (list string) * option TestError) * Store.Heap :=
  match r with
  | 0 => let '(_, h') := Store.Use [1] h in ((req, None), h')
  | _ => note "late" req h
  end.

(** Closures that leave the client alone. *)
Definition quiet (r : Store.MwRef) (req : option (list string))
           (h : Store.Heap)
  : (option (list string) * option TestError) * Store.Heap :=
  note "mw" req h.

(** The transport of [Fixture], which acts on the world only. *)
Definition transport (cl : unit) (req : option (list string))
           (h : Store.Heap)
  : (option nat * option TestError) * Store.Heap :=
  let '(r, w) := send cl req (Store.h_world h) in
  (r, Store.mkHeap (Store.h_client h) (Store.h_baseURL h) (Store.h_mw h) w).

(** A client on which closure 0 is registered. *)
Definition one_registered : Store.Heap :=
  snd (Store.Use [0] (Store.New tt "http://base/" (mkWorld [] EmptyString))).

End StoreFixture.



(* ===================================================================== *)
(** * Part II: properties                                                 *)
(* ===================================================================== *)

(** ** Strings *)

Module StringFacts.

Import strings.

Lemma of_bytes_app (a b : list ascii) :
  of_bytes (a ++ b) = (of_bytes a ++ of_bytes b)%string.
Proof.
  unfold of_bytes. induction a as [|x a IH]; simpl; [reflexivity|].
  now rewrite IH.
Qed.

Lemma bytes_app (a b : string) :
  bytes (a ++ b)%string = bytes a ++ bytes b.
Proof.
  unfold bytes. induction a as [|x a IH]; simpl; [reflexivity|].
  now rewrite IH.
Qed.

Lemma of_bytes_bytes (s : string) : of_bytes (bytes s) = s.
Proof. apply string_of_list_ascii_of_string. Qed.

Lemma bytes_of_bytes (l : list ascii) : bytes (of_bytes l) = l.
Proof. apply list_ascii_of_string_of_list_ascii. Qed.

Lemma of_bytes_repeat (c : ascii) (k : nat) :
  of_bytes (repeat c k) = Repeat (String c EmptyString) k.
Proof.
  induction k as [|k IH]; simpl; [reflexivity|].
  unfold of_bytes in *. simpl. now rewrite IH.
Qed.

Lemma HasPrefix_app (p s : string) : HasPrefix (p ++ s) p = true.
Proof.
  unfold HasPrefix. apply andb_true_intro. split.
  - apply Nat.leb_le. induction p as [|x p IH]; simpl; lia.
  - apply String.eqb_eq. induction p as [|x p IH]; simpl.
    + now destruct s.
    + now rewrite IH.
Qed.

Lemma rev_repeat_same (c : ascii) (k : nat) : rev (repeat c k) = repeat c k.
Proof.
  induction k as [|k IH]; simpl; [reflexivity|].
  rewrite IH. clear IH. induction k as [|k IH]; simpl; [reflexivity|].
  now rewrite IH.
Qed.

(** What the left-trimming loop removes is a run of [c], and what it
    leaves does not start with [c]. *)
Lemma trimLeftBytes_spec (l : list ascii) (c : ascii) :
  exists k, l = repeat c k ++ trimLeftBytes l c
            /\ (forall rest, trimLeftBytes l c <> c :: rest).
Proof.
  induction l as [|a l IH]; simpl.
  - exists 0. split; [reflexivity | discriminate].
  - destruct (Ascii.eqb_spec a c) as [->|Hne].
    + destruct IH as (k & Hk & Hhd). exists (S k). simpl. split.
      * now rewrite <- Hk.
      * exact Hhd.
    + exists 0. split; [reflexivity|]. intros rest H. now inversion H.
Qed.

(** [TrimRight(s, "/")] removes a run of slashes at the end of [s] and
    leaves a string that does not end with a slash. *)
Lemma TrimRight_slash_spec (s : string) :
  (exists k, s = (TrimRight s "/" ++ Repeat "/" k)%string)
  /\ (forall t, TrimRight s "/" <> (t ++ "/")%string).
Proof.
  assert (E : TrimRight s "/" = trimRightByte s "/"%char).
  { destruct s; reflexivity. }
  rewrite E. unfold trimRightByte.
  destruct (trimLeftBytes_spec (rev (bytes s)) "/"%char) as (k & Hk & Hhd).
  split.
  - exists k. rewrite <- (of_bytes_repeat "/"%char k), <- of_bytes_app.
    rewrite <- (rev_repeat_same "/"%char k), <- rev_app_distr, <- Hk.
    now rewrite rev_involutive, of_bytes_bytes.
  - intros t H. apply (f_equal bytes) in H.
    rewrite bytes_of_bytes, bytes_app in H. apply (f_equal (@rev ascii)) in H.
    rewrite rev_involutive, rev_app_distr in H. simpl in H.
    exact (Hhd _ H).
Qed.

End StringFacts.

(** ** [path.Clean] terminates within its fuel *)

Module PathFacts.

Import path.

Lemma copy_element_shrinks (rest out : list ascii) :
  length (fst (copy_element rest out)) <= length rest.
Proof.
  revert out. induction rest as [|c rest IH]; intros out; simpl; [lia|].
  destruct (Ascii.eqb c slash); simpl; [lia|].
  specialize (IH (out ++ [c])). lia.
Qed.

(** The model of [Clean] and [Join] passes the tables of the standard
    library's own tests. *)
Lemma Clean_passes_cleantests :
  forallb (fun t => String.eqb (Clean (fst t)) (snd t)) cleantests = true.
Proof. vm_compute. reflexivity. Qed.

Lemma Join_passes_jointests :
  forallb (fun t => String.eqb (Join (fst t)) (snd t)) jointests = true.
Proof. vm_compute. reflexivity. Qed.

(** The loop of [Clean] reads its whole input when it is given as many
    iterations as there are unread bytes: the fuel never runs out. *)
Lemma clean_loop_finishes (fuel : nat) :
  forall rooted rest out dotdot,
    length rest <= fuel ->
    fst (clean_loop fuel rooted rest out dotdot) = [].
Proof.
  induction fuel as [|fuel IH]; intros rooted rest out dotdot Hlen.
  - destruct rest; [reflexivity | simpl in Hlen; lia].
  - destruct rest as [|c rest1]; [reflexivity|].
    simpl in Hlen. cbn [clean_loop].
    destruct (Ascii.eqb c slash) eqn:Hc.
    { apply IH. lia. }
    destruct (is_dot (c :: rest1)).
    { apply IH. lia. }
    assert (Htl : length (tl rest1) <= fuel).
    { destruct rest1; simpl in *; lia. }
    destruct (is_dotdot (c :: rest1)).
    { destruct (dotdot <? length out); [now apply IH|].
      destruct (negb rooted); now apply IH. }
    match goal with
    | |- context [copy_element ?r ?o] =>
        pose proof (copy_element_shrinks rest1 (o ++ [c])) as Hs;
        assert (Hce : copy_element r o = copy_element rest1 (o ++ [c]))
          by (simpl; now rewrite Hc);
        rewrite Hce; destruct (copy_element rest1 (o ++ [c])) as [rest' out2]
    end.
    simpl in Hs. apply IH. lia.
Qed.

End PathFacts.

(** ** [Client.Path] and [Client.Pathf] *)

Section PathProperties.

Context `{env : GoEnv}.

(** C3.  With base ["http://base/"], [Path("/a/b")] does trim the base to
    ["http://base"] and the path to ["a/b"], but it joins them with
    [path.Join], which cleans the joined string as a file path: the double
    slash after the scheme is an empty path element and is dropped.  The
    result is ["http:/base/a/b"], not the ["http://base/a/b"] of the
    claim. *)
Theorem Path_relative_collapses_scheme_slashes :
  forall (cl : HttpClient) (ms : list ClientMiddleware),
    strings.TrimRight "http://base/" "/" = "http://base"
    /\ strings.TrimLeft "/a/b" "/" = "a/b"
    /\ Path (mkClient cl "http://base/" ms) "/a/b" = "http:/base/a/b"
    /\ Path (mkClient cl "http://base/" ms) "/a/b" <> "http://base/a/b".
Proof.
  intros cl ms. repeat split; try reflexivity.
  vm_compute. discriminate.
Qed.

(** C6.  A path that begins with ["http"] is returned unchanged, whatever
    the client: the base URL is not read.  (At base ["http://base/"] and
    path ["http://x/y"] this is the example of the claim.) *)
Theorem Path_absolute_unchanged :
  forall (c c' : Client) (p : string),
    strings.HasPrefix p "http" = true ->
    Path c p = p /\ Path c' p = Path c p.
Proof.
  intros c c' p H. unfold Path. rewrite H. split; reflexivity.
Qed.

(** C7.  [Path("")] is the base with its trailing slashes trimmed: the
    base is the result followed by slashes only, the result does not end
    with a slash, and nothing is appended.  With base ["http://base/"]
    the result is ["http://base"]. *)
Theorem Path_empty_is_trimmed_base :
  forall c : Client,
    Path c "" = strings.TrimRight (baseURL c) "/"
    /\ (exists k, baseURL c = (Path c "" ++ strings.Repeat "/" k)%string)
    /\ (forall t, Path c "" <> (t ++ "/")%string)
    /\ (forall cl ms, Path (mkClient cl "http://base/" ms) "" = "http://base").
Proof.
  intros c.
  assert (E : Path c "" = strings.TrimRight (baseURL c) "/") by reflexivity.
  destruct (StringFacts.TrimRight_slash_spec (baseURL c)) as [Hk Hend].
  rewrite E. repeat split; auto.
Qed.

(** C8.  [Pathf] is [Path] applied to the result of [fmt.Sprintf] on the
    template and the arguments, for any formatting function. *)
Theorem Pathf_is_Path_of_Sprintf :
  forall (c : Client) (template : string) (args : list Any),
    Pathf c template args = Path c (fmt_Sprintf template args).
Proof. reflexivity. Qed.

(** C9.  The test for an absolute URL is the literal prefix ["http"]:
    every string that starts with these four bytes is returned unchanged
    and independently of the client, be it an [https] URL or no URL at
    all. *)
Theorem Path_prefix_test_is_literal :
  forall (c c' : Client) (rest : string),
    Path c ("http" ++ rest) = ("http" ++ rest)%string
    /\ Path c' ("http" ++ rest) = Path c ("http" ++ rest)
    /\ Path c "https://x/y" = "https://x/y"
    /\ Path c "httpfoo" = "httpfoo".
Proof.
  intros c c' rest.
  assert (H : forall d : Client, Path d ("http" ++ rest) = ("http" ++ rest)%string).
  { intros d. unfold Path. now rewrite StringFacts.HasPrefix_app. }
  rewrite !H. repeat split.
Qed.

End PathProperties.

(** ** [Client.Do] and the verb helpers *)

Section DoProperties.

Context `{env : GoEnv}.

Lemma state_eta (st : State) : mkState (self st) (world st) (calls st) = st.
Proof. now destruct st. Qed.

(** A loop all of whose middleware succeed ends with the threaded request
    and has logged one call per middleware, in order. *)
Lemma range_mw_threads (l : Level) :
  forall mws req w ins req' w',
    threads mws req w ins req' w' ->
    forall i st, world st = w ->
      range_mw l i mws req st
      = (inl req', mkState (self st) w' (calls st ++ entries l i ins)).
Proof.
  induction 1 as [req w | f mws req w req1 w1 ins req' w' Hf _ IH];
    intros i st Hw; subst w.
  - simpl. unfold ret. now rewrite app_nil_r, state_eta.
  - cbn [range_mw]. unfold bind, call. rewrite Hf.
    rewrite IH by reflexivity. cbn [self calls entries].
    now rewrite <- app_assoc.
Qed.

(** A loop stops at the first middleware that returns an error. *)
Lemma range_mw_fails (l : Level) :
  forall pre req w ins req1 w1,
    threads pre req w ins req1 w1 ->
    forall (f : ClientMiddleware) post req2 e w2 i st,
      world st = w ->
      f req1 w1 = ((req2, Some e), w2) ->
      range_mw l i (pre ++ f :: post) req st
      = (inr e, mkState (self st) w2 (calls st ++ entries l i (ins ++ [req1]))).
Proof.
  induction 1 as [req w | g mws req w req1 w1 ins req' w' Hg _ IH];
    intros f post req2 e w2 i st Hw Hf; subst w.
  - cbn [app range_mw]. unfold bind, call. rewrite Hf. reflexivity.
  - cbn [app range_mw]. unfold bind, call. rewrite Hg.
    rewrite (IH f post req2 e w2) by (reflexivity || exact Hf). cbn [self calls app entries].
    now rewrite <- app_assoc.
Qed.

Lemma threads_length mws req w ins req' w' :
  threads mws req w ins req' w' -> length ins = length mws.
Proof. induction 1; simpl; congruence. Qed.

Lemma threads_app_inv (a b : list ClientMiddleware) :
  forall req w ins req' w',
    threads (a ++ b) req w ins req' w' ->
    exists insA reqA wA insB,
      threads a req w insA reqA wA /\ threads b reqA wA insB req' w'
      /\ ins = insA ++ insB.
Proof.
  induction a as [|f a IH]; intros req w ins req' w' H.
  - exists [], req, w, ins. repeat split; [constructor | exact H].
  - inversion H as [| ? ? ? ? req1 w1 ins1 ? ? Hf Ht]; subst.
    destruct (IH _ _ _ _ _ Ht) as (insA & reqA & wA & insB & HA & HB & ->).
    exists (req :: insA), reqA, wA, insB. repeat split; auto.
    econstructor; eauto.
Qed.

Lemma threads_prefix_inv (a b : list ClientMiddleware) :
  forall req w ins req' w',
    threads (a ++ b) req w ins req' w' ->
    exists reqA wA, threads a req w (firstn (length a) ins) reqA wA.
Proof.
  intros req w ins req' w' H.
  destruct (threads_app_inv a b _ _ _ _ _ H)
    as (insA & reqA & wA & insB & HA & _ & ->).
  exists reqA, wA.
  rewrite <- (threads_length _ _ _ _ _ _ HA), firstn_app, firstn_all.
  now rewrite Nat.sub_diag, firstn_O, app_nil_r.
Qed.

Lemma pipeline_entries_app (m : nat) (a b : list (option Request)) :
  forall k,
    pipeline_entries m k (a ++ b)
    = pipeline_entries m k a ++ pipeline_entries m (k + length a) b.
Proof.
  induction a as [|r a IH]; intros k; simpl.
  - now rewrite Nat.add_0_r.
  - rewrite IH. now replace (S k + length a) with (k + S (length a)) by lia.
Qed.

Lemma pipeline_entries_client (m : nat) (ins : list (option Request)) :
  forall k, k + length ins <= m ->
    pipeline_entries m k ins = entries ClientLevel k ins.
Proof.
  induction ins as [|r ins IH]; intros k Hk; simpl in *; [reflexivity|].
  destruct (Nat.ltb_spec k m); [|lia]. rewrite IH by lia. reflexivity.
Qed.

Lemma pipeline_entries_call (m : nat) (ins : list (option Request)) :
  forall j, pipeline_entries m (m + j) ins = entries CallScoped j ins.
Proof.
  induction ins as [|r ins IH]; intros j; simpl; [reflexivity|].
  destruct (Nat.ltb_spec (m + j) m); [lia|].
  replace (m + j - m) with j by lia.
  replace (S (m + j)) with (m + S j) by lia. now rewrite IH.
Qed.

Lemma pipeline_entries_no_transport (m : nat) (ins : list (option Request)) :
  forall k r, ~ In (TransportCall r) (pipeline_entries m k ins).
Proof.
  induction ins as [|x ins IH]; intros k r; simpl; [tauto|].
  intros [H|H]; [destruct (k <? m); discriminate | exact (IH _ _ H)].
Qed.

(** A loop of [Do] does not write to the client. *)
Lemma range_mw_self (l : Level) (mws : list ClientMiddleware) :
  forall i req st, self (snd (range_mw l i mws req st)) = self st.
Proof.
  induction mws as [|f mws IH]; intros i req st; [reflexivity|].
  cbn [range_mw]. unfold bind, call.
  destruct (f req (world st)) as [[req' [e|]] w]; [reflexivity|].
  now rewrite IH.
Qed.

Lemma Do_self (req : option Request) (rmw : list ClientMiddleware) (st : State) :
  self (snd (Do req rmw st)) = self st.
Proof.
  unfold Do, bind, field.
  pose proof (range_mw_self ClientLevel (mw (self st)) 0 req st) as H1.
  destruct (range_mw ClientLevel 0 (mw (self st)) req st) as [[req1|e] st1];
    simpl in H1; [|exact H1].
  pose proof (range_mw_self CallScoped rmw 0 req1 st1) as H2.
  destruct (range_mw CallScoped 0 rmw req1 st1) as [[req2|e] st2];
    simpl in H2; [|simpl; congruence].
  unfold call. destruct (http_Client_Do (client (self st2)) req2 (world st2)).
  simpl. congruence.
Qed.

Lemma pipeline_entries_length (m : nat) (ins : list (option Request)) :
  forall k, length (pipeline_entries m k ins) = length ins.
Proof. induction ins as [|r ins IH]; intros k; simpl; [|rewrite IH]; reflexivity. Qed.

(** C1.  When every middleware returns a nil error, [Do] calls the
    client-level middleware [M = c.mw] in order, each on the request its
    predecessor returned, then the call-supplied middleware [N = rmw] in
    order, starting from the request the last of [M] returned, then the
    transport once, on the request the last of [N] returned; these are all
    the calls it makes, and it returns the transport's result as it is.
    Either sequence may be empty. *)
Theorem Do_runs_client_then_call_middleware_then_transport :
  forall (st : State) (req : option Request) (rmw : list ClientMiddleware)
         (insM insN : list (option Request)) (reqM reqN : option Request)
         (wM wN wT : World) (result : option Response * option Error),
    threads (mw (self st)) req (world st) insM reqM wM ->
    threads rmw reqM wM insN reqN wN ->
    http_Client_Do (client (self st)) reqN wN = (result, wT) ->
    Do req rmw st
    = (result,
       mkState (self st) wT
         (calls st ++ entries ClientLevel 0 insM
                   ++ entries CallScoped 0 insN
                   ++ [TransportCall reqN]))
    /\ length insM = length (mw (self st))
    /\ length insN = length rmw.
Proof.
  intros st req rmw insM insN reqM reqN wM wN wT result HM HN HT.
  split; [|split; eapply threads_length; eassumption].
  unfold Do, bind, field.
  rewrite (range_mw_threads ClientLevel _ _ _ _ _ _ HM 0 st eq_refl).
  cbv beta iota.
  erewrite (range_mw_threads CallScoped _ _ _ _ _ _ HN); [|reflexivity].
  unfold call. cbn [self world calls]. rewrite HT.
  now rewrite <- !app_assoc.
Qed.

(** C2.  When a middleware of the pipeline [c.mw ++ rmw] returns an error
    after all those before it returned none, [Do] returns that error value
    with a nil response; the world is the one the failing middleware left,
    the calls made are exactly those up to and including the failing one,
    none of them to the transport, and the client is unchanged. *)
Theorem Do_aborts_at_failing_middleware :
  forall (st : State) (req : option Request) (rmw : list ClientMiddleware)
         (pre post : list ClientMiddleware) (f : ClientMiddleware)
         (ins : list (option Request)) (req1 req2 : option Request)
         (w1 w2 : World) (e : Error),
    mw (self st) ++ rmw = pre ++ f :: post ->
    threads pre req (world st) ins req1 w1 ->
    f req1 w1 = ((req2, Some e), w2) ->
    let made := pipeline_entries (length (mw (self st))) 0 (ins ++ [req1]) in
    Do req rmw st = ((None, Some e), mkState (self st) w2 (calls st ++ made))
    /\ length made = S (length pre)
    /\ (forall r, ~ In (TransportCall r) made).
Proof.
  intros st req rmw pre post f ins req1 req2 w1 w2 e Hsplit Hpre Hf made.
  split; [|split].
  2:{ unfold made. rewrite pipeline_entries_length, length_app. simpl.
      rewrite (threads_length _ _ _ _ _ _ Hpre). lia. }
  2:{ intros r. apply pipeline_entries_no_transport. }
  unfold made. clear made.
  assert (Hcases :
    (exists tl, mw (self st) = pre ++ f :: tl)
    \/ (exists l, pre = mw (self st) ++ l /\ rmw = l ++ f :: post)).
  { apply app_eq_app in Hsplit. destruct Hsplit as (l & [[H1 H2] | [H1 H2]]).
    - destruct l as [|x l].
      + right. exists []. simpl in H2. rewrite app_nil_r in H1. subst.
        split; [now rewrite app_nil_r | reflexivity].
      + left. exists l. simpl in H2. inversion H2. now subst.
    - right. now exists l. }
  destruct Hcases as [(tl & HM) | (l & Hl & HN)].
  - (* the failing middleware is client-level *)
    unfold Do, bind, field. cbv beta iota. rewrite HM.
    rewrite (range_mw_fails ClientLevel _ _ _ _ _ _ Hpre f tl req2 e w2 0 st eq_refl Hf).
    unfold ret. rewrite pipeline_entries_client; [reflexivity|].
    rewrite !length_app. simpl. rewrite (threads_length _ _ _ _ _ _ Hpre). lia.
  - (* the failing middleware is call-scoped *)
    subst pre rmw.
    destruct (threads_app_inv _ _ _ _ _ _ _ Hpre)
      as (insA & reqA & wA & insB & HA & HB & ->).
    unfold Do, bind, field.
    rewrite (range_mw_threads ClientLevel _ _ _ _ _ _ HA 0 st eq_refl).
    cbv beta iota.
    erewrite (range_mw_fails CallScoped _ _ _ _ _ _ HB f post req2 e w2);
      [|reflexivity|exact Hf].
    unfold ret. cbn [self calls].
    rewrite <- (app_assoc insA insB [req1]), pipeline_entries_app.
    rewrite (pipeline_entries_client _ insA 0)
      by (rewrite (threads_length _ _ _ _ _ _ HA); lia).
    rewrite (threads_length _ _ _ _ _ _ HA), Nat.add_0_l.
    rewrite <- (Nat.add_0_r (length (mw (self st)))) at 2.
    rewrite pipeline_entries_call. now rewrite <- app_assoc.
Qed.

(** C5.  When the request constructor of a verb helper returns an error,
    the helper returns a nil response with that error and leaves the whole
    state as it was: the world no middleware has touched, a call log with
    no new middleware or transport call, the same client. *)
Theorem helper_construction_failure_returns_early :
  forall (h : HelperCall) (st : State) (req : option Request) (e : Error),
    construction h = (req, Some e) ->
    run_helper h st = ((None, Some e), st).
Proof.
  intros h st req e H.
  destruct h; cbn [construction run_helper] in *;
    unfold Get, GetCtx, Post, PostCtx, Put, PutCtx, Delete, DeleteCtx;
    rewrite H; reflexivity.
Qed.

(** In this model, where the callbacks act on a world that does not hold
    the client, [Do] leaves the client object as it was, however the call
    ends; of all the methods only [Use] assigns a field, and what it
    assigns is the middleware list with its arguments appended.  (The
    store model below lets the callbacks reach the client.) *)
Theorem only_Use_writes_the_client :
  (forall (req : option Request) (rmw : list ClientMiddleware) (st : State),
      self (snd (Do req rmw st)) = self st)
  /\ (forall (m : MethodCall) (st : State),
         client (self (snd (run_method m st))) = client (self st)
         /\ baseURL (self (snd (run_method m st))) = baseURL (self st)
         /\ mw (self (snd (run_method m st)))
            = match m with
              | MUse mws => mw (self st) ++ mws
              | _ => mw (self st)
              end).
Proof.
  split; [exact Do_self|].
  intros m st.
  assert (Hh : forall h, self (snd (run_helper h st)) = self st).
  { intros h.
    destruct h; cbn [run_helper];
      unfold Get, GetCtx, Post, PostCtx, Put, PutCtx, Delete, DeleteCtx;
      match goal with
      | |- context [let '(_, _) := ?built in _] =>
          destruct built as [r [e|]]; [reflexivity | apply Do_self]
      end. }
  destruct m as [mws | h | req rmw | url | url v]; cbn [run_method]; unfold bind.
  - repeat split.
  - specialize (Hh h). destruct (run_helper h st) as [r st']. simpl in *.
    now rewrite Hh.
  - pose proof (Do_self req rmw st) as Hd.
    destruct (Do req rmw st) as [r st']. simpl in *. now rewrite Hd.
  - repeat split.
  - repeat split.
Qed.

End DoProperties.

(** ** The client across a call, when callbacks can reach it *)

Section StoreProperties.

Context `{env : GoEnv}.

Import Store.

Variable code :
  MwRef -> option Request -> Heap -> (option Request * option Error) * Heap.
Variable send :
  HttpClient -> option Request -> Heap ->
  (option Response * option Error) * Heap.

Hypothesis code_keeps_client :
  forall r req h, client_fields (snd (code r req h)) = client_fields h.
Hypothesis send_keeps_client :
  forall cl req h, client_fields (snd (send cl req h)) = client_fields h.

Lemma range_mw_keeps_client (mws : list MwRef) :
  forall req h,
    client_fields (snd (Store.range_mw code mws req h)) = client_fields h.
Proof.
  induction mws as [|f mws IH]; intros req h; [reflexivity|].
  cbn [Store.range_mw].
  pose proof (code_keeps_client f req h) as Hf.
  destruct (code f req h) as [[req' [e|]] h']; cbn [snd] in Hf |- *;
    [exact Hf|].
  rewrite IH. exact Hf.
Qed.

Lemma Do_keeps_client (req : option Request) (rmw : list MwRef) (h : Heap) :
  client_fields (snd (Store.Do code send req rmw h)) = client_fields h.
Proof.
  unfold Store.Do.
  pose proof (range_mw_keeps_client (h_mw h) req h) as H1.
  destruct (Store.range_mw code (h_mw h) req h) as [[req1|e] h1];
    cbn [snd] in H1 |- *; [|exact H1].
  pose proof (range_mw_keeps_client rmw req1 h1) as H2.
  destruct (Store.range_mw code rmw req1 h1) as [[req2|e] h2];
    cbn [snd] in H2 |- *; [|congruence].
  rewrite send_keeps_client. congruence.
Qed.

Lemma helper_keeps_client (built : option Request * option Error)
      (mws : list MwRef) (h : Heap) :
  client_fields
    (snd (let '(req, err) := built in
          match err with
          | Some e => ((None, Some e), h)
          | None => Store.Do code send req mws h
          end))
  = client_fields h.
Proof. destruct built as [req [e|]]; [reflexivity | apply Do_keeps_client]. Qed.

Lemma after_client (m : MethodCall) (h : Heap) :
  client_fields (after code send m h)
  = match m with
    | MUse mws => (h_client h, h_baseURL h, h_mw h ++ mws)
    | _ => client_fields h
    end.
Proof.
  destruct m; cbn [after]; try reflexivity;
    try apply helper_keeps_client; apply Do_keeps_client.
Qed.

End StoreProperties.

(** C10, as amended.  The code of [Do] writes no field of the client:
    when no middleware closure and no transport writes the client, its
    transport handle, base URL and middleware list after a call of [Do]
    are what they were before, however the call ends.  Under the same
    proviso, of all the methods only [Use] changes the client, and what it
    does is append its arguments to the middleware list, leaving the rest
    of the heap as it is. *)
Theorem client_changes_only_by_Use_or_a_callback :
  forall `{env : GoEnv}
         (code : Store.MwRef -> option Request -> Store.Heap ->
                 (option Request * option Error) * Store.Heap)
         (send : HttpClient -> option Request -> Store.Heap ->
                 (option Response * option Error) * Store.Heap),
    (forall r req h,
        Store.client_fields (snd (code r req h)) = Store.client_fields h) ->
    (forall cl req h,
        Store.client_fields (snd (send cl req h)) = Store.client_fields h) ->
    (forall req rmw h,
        Store.client_fields (snd (Store.Do code send req rmw h))
        = Store.client_fields h)
    /\ (forall m h,
           Store.client_fields (Store.after code send m h)
           = match m with
             | Store.MUse mws =>
                 (Store.h_client h, Store.h_baseURL h, Store.h_mw h ++ mws)
             | _ => Store.client_fields h
             end)
    /\ (forall mws h,
           Store.h_world (snd (Store.Use mws h)) = Store.h_world h).
Proof.
  intros env code send Hc Hs. split; [|split].
  - intros req rmw h. now apply Do_keeps_client.
  - intros m h. now apply after_client.
  - reflexivity.
Qed.

(** ** [DecodeJSON] *)

Section DecodeProperties.

Context `{jenv : JsonEnv} {T : Type} `{tgt : !Target T}.

(** C4, as amended.  [DecodeJSON] returns the error of [Decode] as it is,
    with the contents of its variable after [Decode].  When no complete
    JSON value can be read off the body (malformed JSON, body already
    consumed, read error) that is the zero value of [T] with a non-nil
    error; when a value is read, it is whatever [unmarshal] stored into the
    zero value, with the error [unmarshal] reports, if any. *)
Theorem DecodeJSON_returns_variable_after_Decode :
  forall (r : Response) (w : World),
    (forall (e : Error) (w' : World),
        json_readValue (Response_Body r) w = (inr e, w') ->
        DecodeJSON r w = ((zero_value, Some e), w'))
    /\ (forall (val : Value) (w' : World),
           json_readValue (Response_Body r) w = (inl val, w') ->
           DecodeJSON r w = (json_unmarshal val zero_value, w')).
Proof.
  intros r w. split.
  - intros e w' H. unfold DecodeJSON, Decoder_Decode. now rewrite H.
  - intros val w' H. unfold DecodeJSON, Decoder_Decode. rewrite H.
    destruct (json_unmarshal val zero_value) as [v [e|]]; reflexivity.
Qed.

End DecodeProperties.

(** ** The theorems at concrete inputs *)

Module Examples.

Import Fixture.

(** The client of [registered] holds the two middleware in registration
    order. *)
Lemma registered_client :
  self registered = mkClient tt "http://base/" [mark "m1"; mark "m2"].
Proof. reflexivity. Qed.

(** C1 at a client with two registered middleware and one call-supplied
    middleware: the trace the middleware and the transport write
    themselves is [m1; m2; n1; send]. *)
Lemma Do_order_witness :
  threads (mw (self registered)) (Some ["r"]) (world registered)
          [Some ["r"]; Some ["r"; "m1"]] (Some ["r"; "m1"; "m2"])
          (mkWorld ["m1"; "m2"] EmptyString)
  /\ threads [mark "n1"] (Some ["r"; "m1"; "m2"])
             (mkWorld ["m1"; "m2"] EmptyString)
             [Some ["r"; "m1"; "m2"]] (Some ["r"; "m1"; "m2"; "n1"])
             (mkWorld ["m1"; "m2"; "n1"] EmptyString)
  /\ Do (Some ["r"]) [mark "n1"] registered
     = ((Some 200, None),
        mkState (self registered)
          (mkWorld ["m1"; "m2"; "n1"; "send"] reply)
          [MwCall ClientLevel 0 (Some ["r"]);
           MwCall ClientLevel 1 (Some ["r"; "m1"]);
           MwCall CallScoped 0 (Some ["r"; "m1"; "m2"]);
           TransportCall (Some ["r"; "m1"; "m2"; "n1"])]).
Proof.
  assert (HM : threads (mw (self registered)) (Some ["r"]) (world registered)
                 [Some ["r"]; Some ["r"; "m1"]] (Some ["r"; "m1"; "m2"])
                 (mkWorld ["m1"; "m2"] EmptyString)).
  { rewrite registered_client. cbn [mw world registered].
    eapply (@threads_cons test_env); [reflexivity|].
    eapply (@threads_cons test_env); [reflexivity|]. apply (@threads_nil test_env). }
  assert (HN : threads [mark "n1"] (Some ["r"; "m1"; "m2"])
                 (mkWorld ["m1"; "m2"] EmptyString)
                 [Some ["r"; "m1"; "m2"]] (Some ["r"; "m1"; "m2"; "n1"])
                 (mkWorld ["m1"; "m2"; "n1"] EmptyString)).
  { eapply (@threads_cons test_env); [reflexivity|]. apply (@threads_nil test_env). }
  split; [exact HM | split; [exact HN|]].
  exact (proj1 (Do_runs_client_then_call_middleware_then_transport
                  registered (Some ["r"]) [mark "n1"] _ _ _ _ _ _
                  (mkWorld ["m1"; "m2"; "n1"; "send"] reply)
                  (Some 200, None) HM HN eq_refl)).
Defined.

(** C2 at the same client, with a call-supplied middleware that fails
    between two that do not: [n3] and the transport never run. *)
Lemma Do_abort_witness :
  mw (self registered) ++ [mark "n1"; failing "n2" 7; mark "n3"]
  = [mark "m1"; mark "m2"; mark "n1"] ++ failing "n2" 7 :: [mark "n3"]
  /\ threads [mark "m1"; mark "m2"; mark "n1"] (Some ["r"]) (world registered)
             [Some ["r"]; Some ["r"; "m1"]; Some ["r"; "m1"; "m2"]]
             (Some ["r"; "m1"; "m2"; "n1"])
             (mkWorld ["m1"; "m2"; "n1"] EmptyString)
  /\ Do (Some ["r"]) [mark "n1"; failing "n2" 7; mark "n3"] registered
     = ((None, Some (ErrMiddleware 7)),
        mkState (self registered)
          (mkWorld ["m1"; "m2"; "n1"; "n2"] EmptyString)
          [MwCall ClientLevel 0 (Some ["r"]);
           MwCall ClientLevel 1 (Some ["r"; "m1"]);
           MwCall CallScoped 0 (Some ["r"; "m1"; "m2"]);
           MwCall CallScoped 1 (Some ["r"; "m1"; "m2"; "n1"])]).
Proof.
  assert (Hpre : threads [mark "m1"; mark "m2"; mark "n1"] (Some ["r"])
                   (world registered)
                   [Some ["r"]; Some ["r"; "m1"]; Some ["r"; "m1"; "m2"]]
                   (Some ["r"; "m1"; "m2"; "n1"])
                   (mkWorld ["m1"; "m2"; "n1"] EmptyString)).
  { eapply (@threads_cons test_env); [reflexivity|].
    eapply (@threads_cons test_env); [reflexivity|].
    eapply (@threads_cons test_env); [reflexivity|]. apply (@threads_nil test_env). }
  split; [reflexivity | split; [exact Hpre|]].
  exact (proj1 (Do_aborts_at_failing_middleware
                  registered (Some ["r"])
                  [mark "n1"; failing "n2" 7; mark "n3"]
                  [mark "m1"; mark "m2"; mark "n1"] [mark "n3"]
                  (failing "n2" 7) _ _ None _
                  (mkWorld ["m1"; "m2"; "n1"; "n2"] EmptyString)
                  (ErrMiddleware 7) eq_refl Hpre eq_refl)).
Defined.

(** C5 at [Get] on a URL with no scheme: nothing runs. *)
Lemma helper_failure_witness :
  construction (CGet ":bad" [mark "n1"]) = (None, Some ErrMissingScheme)
  /\ run_helper (CGet ":bad" [mark "n1"]) registered
     = ((None, Some ErrMissingScheme), registered).
Proof.
  split; [reflexivity|].
  exact (helper_construction_failure_returns_early
           (CGet ":bad" [mark "n1"]) registered None ErrMissingScheme eq_refl).
Defined.

(** C6 at base ["http://base/"] and path ["http://x/y"]. *)
Lemma Path_absolute_witness :
  strings.HasPrefix "http://x/y" "http" = true
  /\ Path (self registered) "http://x/y" = "http://x/y".
Proof.
  split; [reflexivity|].
  exact (proj1 (Path_absolute_unchanged
                  (self registered) (self registered) "http://x/y" eq_refl)).
Defined.

(** C4, as amended, at a body cut off inside the object (zero value and
    an error) and at the body of the counterexample below. *)
Lemma DecodeJSON_witness :
  DecodeJSON (T := AB) 200 (with_body truncated)
  = ((mkAB 0 0, Some ErrUnexpectedEOF), with_body EmptyString)
  /\ DecodeJSON (T := AB) 200 (with_body mismatched)
     = (unmarshal_AB
          (JObj [("a", JNum 1); ("b", JStr "x")]) (mkAB 0 0),
        with_body EmptyString).
Proof.
  split.
  - exact (proj1 (DecodeJSON_returns_variable_after_Decode
                    (T := AB) 200 (with_body truncated))
                 ErrUnexpectedEOF (with_body EmptyString) eq_refl).
  - exact (proj2 (DecodeJSON_returns_variable_after_Decode
                    (T := AB) 200 (with_body mismatched))
                 (JObj [("a", JNum 1); ("b", JStr "x")])
                 (with_body EmptyString) eq_refl).
Defined.

(** C4 as stated fails.  The body [{"a":1,"b":"x"}] is well-formed JSON
    that does not decode into [struct { A int; B int }]: the decoder
    stores [A], skips [B] and reports the mismatch, and [DecodeJSON]
    returns the half-filled value [{A:1, B:0}] with the error. *)
Lemma DecodeJSON_mismatch_returns_partial_value :
  DecodeJSON (T := AB) 200 (with_body mismatched)
  = ((mkAB 1 0, Some (ErrUnmarshalType "b")), with_body EmptyString)
  /\ mkAB 1 0 <> zero_value
  /\ ~ zero_on_every_failure (T := AB).
Proof.
  assert (H : DecodeJSON (T := AB) 200 (with_body mismatched)
              = ((mkAB 1 0, Some (ErrUnmarshalType "b")),
                 with_body EmptyString)) by reflexivity.
  split; [exact H | split; [discriminate|]].
  intros Hz. specialize (Hz _ _ _ _ _ H). discriminate.
Qed.

(** The examples of the specification for [DecodeJSON]: the body
    [{"a":1}] decodes to [A = 1] with a nil error. *)
Lemma DecodeJSON_example :
  DecodeJSON (T := AB) 200 (with_body reply)
  = ((mkAB 1 0, None), with_body EmptyString).
Proof. reflexivity. Qed.

(** The example of the specification for [Pathf], on the code:
    the double slash of the base is collapsed here too. *)
Lemma Pathf_example :
  Pathf (mkClient tt "http://base" []) "/users/%d" [42]
  = "http:/base/users/42".
Proof. reflexivity. Qed.

(** C10 as stated fails.  A registered middleware that captures the
    client and calls [c.Use] while [Do] runs leaves the client with two
    middleware where it had one: the call succeeds, and the running [Do]
    does not call the new one (only the transport wrote to the trace). *)
Lemma middleware_calling_Use_changes_client :
  Store.client_fields StoreFixture.one_registered = (tt, "http://base/", [0])
  /\ Store.client_fields
       (snd (Store.Do StoreFixture.registering StoreFixture.transport
                      (Some ["r"]) [] StoreFixture.one_registered))
     = (tt, "http://base/", [0; 1])
  /\ fst (Store.Do StoreFixture.registering StoreFixture.transport
                   (Some ["r"]) [] StoreFixture.one_registered)
     = (Some 200, None)
  /\ trace (Store.h_world
              (snd (Store.Do StoreFixture.registering StoreFixture.transport
                             (Some ["r"]) [] StoreFixture.one_registered)))
     = ["send"]
  /\ ~ Store.Do_never_changes_client (env := test_env).
Proof.
  repeat (split; [reflexivity|]).
  intros H.
  specialize (H StoreFixture.registering StoreFixture.transport
                (Some ["r"]) [] StoreFixture.one_registered).
  vm_compute in H. discriminate.
Qed.

(** C10, as amended, at closures that leave the client alone: after a
    call of [Do] with one call-supplied middleware the client is as
    before. *)
Lemma client_frame_witness :
  (forall r req h,
      Store.client_fields (snd (StoreFixture.quiet r req h))
      = Store.client_fields h)
  /\ (forall cl req h,
         Store.client_fields (snd (StoreFixture.transport cl req h))
         = Store.client_fields h)
  /\ Store.client_fields
       (snd (Store.Do StoreFixture.quiet StoreFixture.transport
                      (Some ["r"]) [7] StoreFixture.one_registered))
     = (tt, "http://base/", [0]).
Proof.
  assert (Hq : forall r req h,
             Store.client_fields (snd (StoreFixture.quiet r req h))
             = Store.client_fields h) by reflexivity.
  assert (Ht : forall cl req h,
             Store.client_fields (snd (StoreFixture.transport cl req h))
             = Store.client_fields h).
  { intros cl req h. destruct req; reflexivity. }
  split; [exact Hq | split; [exact Ht|]].
  exact (proj1 (client_changes_only_by_Use_or_a_callback
                  StoreFixture.quiet StoreFixture.transport Hq Ht)
               (Some ["r"]) [7] StoreFixture.one_registered).
Defined.

End Examples.

(* ===================================================================== *)
(** * Part III: further properties of the code                            *)
(* ===================================================================== *)

(** ** Registration and dispatch *)

Section DispatchProperties.

Context `{env : GoEnv}.

(** A loop of [Do] computes the pipeline of its middleware: same answer,
    same world, and a log that grows by one entry per middleware called. *)
Lemma range_mw_pipeline (l : Level) (mws : list ClientMiddleware) :
  forall i req st,
    fst (range_mw l i mws req st) = fst (pipeline mws req (world st))
    /\ world (snd (range_mw l i mws req st))
       = snd (pipeline mws req (world st))
    /\ self (snd (range_mw l i mws req st)) = self st.
Proof.
  induction mws as [|f mws IH]; intros i req st; [repeat split|].
  cbn [range_mw pipeline]. unfold bind, call.
  destruct (f req (world st)) as [[req' [e|]] w]; [repeat split|].
  exact (IH (S i) req' (mkState (self st) w (calls st ++ [MwCall l i req]))).
Qed.

Lemma pipeline_app (a b : list ClientMiddleware) :
  forall req w,
    pipeline (a ++ b) req w
    = match pipeline a req w with
      | (inl req', w') => pipeline b req' w'
      | (inr e, w') => (inr e, w')
      end.
Proof.
  induction a as [|f a IH]; intros req w; [reflexivity|].
  cbn [app pipeline].
  destruct (f req w) as [[req' [e|]] w']; [reflexivity | apply IH].
Qed.

(** The two loops of [Do] followed by the transport compute [dispatch]
    on the concatenated middleware. *)
Lemma Do_dispatch (req : option Request) (rmw : list ClientMiddleware)
      (st : State) :
  fst (Do req rmw st)
  = fst (dispatch (client (self st)) (mw (self st) ++ rmw) req (world st))
  /\ world (snd (Do req rmw st))
     = snd (dispatch (client (self st)) (mw (self st) ++ rmw) req (world st)).
Proof.
  unfold Do, dispatch, bind, field. rewrite pipeline_app.
  destruct (range_mw_pipeline ClientLevel (mw (self st)) 0 req st)
    as (H1 & H2 & H3).
  destruct (range_mw ClientLevel 0 (mw (self st)) req st) as [r1 st1].
  destruct (pipeline (mw (self st)) req (world st)) as [p1 w1].
  simpl in H1, H2, H3. subst p1 w1.
  destruct r1 as [req1|e]; [|split; reflexivity].
  destruct (range_mw_pipeline CallScoped rmw 0 req1 st1) as (K1 & K2 & K3).
  destruct (range_mw CallScoped 0 rmw req1 st1) as [r2 st2].
  destruct (pipeline rmw req1 (world st1)) as [p2 w2].
  simpl in K1, K2, K3. subst p2 w2.
  destruct r2 as [req2|e]; [|split; reflexivity].
  unfold call. rewrite K3, H3.
  destruct (http_Client_Do (client (self st)) req2 (world st2)).
  split; reflexivity.
Qed.

Lemma register_concat (batches : list (list ClientMiddleware)) :
  forall st : State,
    register batches st
    = mkState (mkClient (client (self st)) (baseURL (self st))
                        (mw (self st) ++ concat batches))
              (world st) (calls st).
Proof.
  induction batches as [|b batches IH]; intros st.
  - cbn [register fold_left concat]. rewrite app_nil_r.
    destruct st as [[cl base ms] w cs]. reflexivity.
  - change (register (b :: batches) st)
      with (register batches (snd (Use b st))).
    rewrite IH. unfold Use, bind, field, set_mw.
    cbn [snd self client baseURL mw world calls concat].
    now rewrite <- app_assoc.
Qed.

(** X1.  Any number of calls to [Use] leaves on the client the
    middleware it had followed by all the arguments, batch after batch, in
    the order given; the transport handle, the base URL, the world and the
    call log are untouched.  Registering in several calls or in one is the
    same, and a call without arguments changes nothing. *)
Theorem Use_batches_concatenate :
  forall (batches : list (list ClientMiddleware)) (st : State),
    register batches st
    = mkState (mkClient (client (self st)) (baseURL (self st))
                        (mw (self st) ++ concat batches))
              (world st) (calls st).
Proof. intros batches st. apply register_concat. Qed.

(** X2.  Whatever the middleware and the transport do, the answer of [Do]
    and its effect on the world are those of a single pipeline - the
    client-level middleware followed by the call-supplied ones, cut at the
    first error - followed by the transport. *)
Theorem Do_is_one_pipeline_then_transport :
  forall (st : State) (req : option Request) (rmw : list ClientMiddleware),
    fst (Do req rmw st)
    = fst (dispatch (client (self st)) (mw (self st) ++ rmw) req (world st))
    /\ world (snd (Do req rmw st))
       = snd (dispatch (client (self st)) (mw (self st) ++ rmw) req (world st)).
Proof. intros st req rmw. apply Do_dispatch. Qed.


(** Every pipeline either runs to its end or has a first middleware that
    returns an error. *)
Lemma pipeline_runs (mws : list ClientMiddleware) :
  forall req w,
    (exists ins req' w', threads mws req w ins req' w')
    \/ (exists pre (f : ClientMiddleware) post ins req1 w1 req2 e w2,
           mws = pre ++ f :: post
           /\ threads pre req w ins req1 w1
           /\ f req1 w1 = ((req2, Some e), w2)).
Proof.
  induction mws as [|f mws IH]; intros req w.
  - left. exists [], req, w. constructor.
  - destruct (f req w) as [[req1 [e|]] w1] eqn:Hf.
    + right. exists [], f, mws, [], req, w, req1, e, w1.
      repeat split; [constructor | exact Hf].
    + destruct (IH req1 w1)
        as [(ins & req' & w' & H)
           | (pre & g & post & ins & r1 & v1 & r2 & e & v2 & -> & Hpre & Hg)].
      * left. exists (req :: ins), req', w'. econstructor; eassumption.
      * right. exists (f :: pre), g, post, (req :: ins), r1, v1, r2, e, v2.
        repeat split; [econstructor; eassumption | exact Hg].
Qed.

Lemma Do_when_client_level_fails
      (st : State) (req : option Request) (rmw : list ClientMiddleware)
      (pre post : list ClientMiddleware) (f : ClientMiddleware)
      ins req1 w1 req2 e w2 :
  mw (self st) = pre ++ f :: post ->
  threads pre req (world st) ins req1 w1 ->
  f req1 w1 = ((req2, Some e), w2) ->
  Do req rmw st
  = ((None, Some e),
     mkState (self st) w2 (calls st ++ entries ClientLevel 0 (ins ++ [req1]))).
Proof.
  intros HM Hpre Hf. unfold Do, bind, field. cbv beta iota. rewrite HM.
  now rewrite (range_mw_fails ClientLevel _ _ _ _ _ _ Hpre f post req2 e w2 0
                              st eq_refl Hf).
Qed.

Lemma Do_when_call_scoped_fails
      (st : State) (req : option Request)
      (pre post : list ClientMiddleware) (f : ClientMiddleware)
      insM reqM wM ins req1 w1 req2 e w2 :
  threads (mw (self st)) req (world st) insM reqM wM ->
  threads pre reqM wM ins req1 w1 ->
  f req1 w1 = ((req2, Some e), w2) ->
  Do req (pre ++ f :: post) st
  = ((None, Some e),
     mkState (self st) w2
       (calls st ++ entries ClientLevel 0 insM
                 ++ entries CallScoped 0 (ins ++ [req1]))).
Proof.
  intros HM Hpre Hf. unfold Do, bind, field.
  rewrite (range_mw_threads ClientLevel _ _ _ _ _ _ HM 0 st eq_refl).
  cbv beta iota.
  erewrite (range_mw_fails CallScoped _ _ _ _ _ _ Hpre f post req2 e w2);
    [|reflexivity|exact Hf].
  unfold ret. cbn [self calls]. now rewrite <- app_assoc.
Qed.

Lemma Do_when_all_pass
      (st : State) (req : option Request) (rmw : list ClientMiddleware)
      insM reqM wM insN reqN wN :
  threads (mw (self st)) req (world st) insM reqM wM ->
  threads rmw reqM wM insN reqN wN ->
  Do req rmw st
  = (fst (http_Client_Do (client (self st)) reqN wN),
     mkState (self st) (snd (http_Client_Do (client (self st)) reqN wN))
       (calls st ++ entries ClientLevel 0 insM
                 ++ entries CallScoped 0 insN ++ [TransportCall reqN])).
Proof.
  intros HM HN. unfold Do, bind, field.
  rewrite (range_mw_threads ClientLevel _ _ _ _ _ _ HM 0 st eq_refl).
  cbv beta iota.
  erewrite (range_mw_threads CallScoped _ _ _ _ _ _ HN); [|reflexivity].
  unfold call. cbn [self world calls].
  destruct (http_Client_Do (client (self st)) reqN wN).
  cbn [fst snd]. now rewrite <- !app_assoc.
Qed.

Lemma pipeline_entries_two_levels (insM insN : list (option Request)) :
  pipeline_entries (length insM) 0 (insM ++ insN)
  = entries ClientLevel 0 insM ++ entries CallScoped 0 insN.
Proof.
  rewrite pipeline_entries_app, Nat.add_0_l.
  rewrite (pipeline_entries_client _ insM 0) by lia.
  rewrite <- (Nat.add_0_r (length insM)) at 2.
  now rewrite pipeline_entries_call.
Qed.

(** X4.  On every path, whatever the middleware and the transport do, the
    calls [Do] makes are an initial part of the pipeline, each middleware
    called at most once and in order, client-level before call-supplied.
    Either the part is not empty, the transport is not called and [Do]
    returns a nil response with an error; or all the middleware were
    called and the transport is called once, last. *)
Theorem Do_calls_form_a_pipeline_prefix :
  forall (st : State) (req : option Request) (rmw : list ClientMiddleware),
  exists ins : list (option Request),
    length ins <= length (mw (self st)) + length rmw
    /\ ((exists e,
            fst (Do req rmw st) = (None, Some e)
            /\ 1 <= length ins
            /\ calls (snd (Do req rmw st))
               = calls st ++ pipeline_entries (length (mw (self st))) 0 ins)
        \/ (exists reqN,
               length ins = length (mw (self st)) + length rmw
               /\ calls (snd (Do req rmw st))
                  = calls st
                    ++ pipeline_entries (length (mw (self st))) 0 ins
                    ++ [TransportCall reqN])).
Proof.
  intros st req rmw.
  destruct (pipeline_runs (mw (self st)) req (world st))
    as [(insM & reqM & wM & HM)
       | (pre & f & post & ins & req1 & w1 & req2 & e & w2 & HS & Hpre & Hf)].
  2:{ exists (ins ++ [req1]).
      rewrite (Do_when_client_level_fails st req rmw _ _ _ _ _ _ _ _ _ HS Hpre Hf).
      pose proof (threads_length _ _ _ _ _ _ Hpre) as Hl.
      assert (Hm : length (mw (self st)) = length pre + S (length post)).
      { rewrite HS, length_app. reflexivity. }
      rewrite length_app. cbn [length fst snd calls]. split; [lia|].
      left. exists e. repeat split; [lia|].
      rewrite pipeline_entries_client; [reflexivity|].
      rewrite length_app. simpl. lia. }
  pose proof (threads_length _ _ _ _ _ _ HM) as HlM.
  destruct (pipeline_runs rmw reqM wM)
    as [(insN & reqN & wN & HN)
       | (pre & f & post & ins & req1 & w1 & req2 & e & w2 & -> & Hpre & Hf)].
  - exists (insM ++ insN).
    rewrite (Do_when_all_pass st req rmw _ _ _ _ _ _ HM HN).
    pose proof (threads_length _ _ _ _ _ _ HN) as HlN.
    rewrite length_app. cbn [fst snd calls]. split; [lia|].
    right. exists reqN. split; [lia|].
    rewrite <- HlM, pipeline_entries_two_levels. now rewrite <- !app_assoc.
  - exists (insM ++ ins ++ [req1]).
    rewrite (Do_when_call_scoped_fails st req _ post _ _ _ _ _ _ _ _ _ _ HM Hpre Hf).
    pose proof (threads_length _ _ _ _ _ _ Hpre) as Hl.
    rewrite !length_app. cbn [length fst snd calls]. split; [lia|].
    left. exists e. repeat split; [lia|].
    now rewrite <- HlM, pipeline_entries_two_levels.
Qed.

(** X10.  When its request constructor returns a nil error, each of the
    eight verb helpers answers as the dispatch of the constructed request
    through the client-level middleware followed by its own, with the
    same effect on the world. *)
Theorem helper_success_is_dispatch :
  forall (h : HelperCall) (st : State) (req : option Request),
    construction h = (req, None) ->
    fst (run_helper h st)
    = fst (dispatch (client (self st)) (mw (self st) ++ scoped h) req
                    (world st))
    /\ world (snd (run_helper h st))
       = snd (dispatch (client (self st)) (mw (self st) ++ scoped h) req
                       (world st)).
Proof.
  intros h st req H.
  destruct h; cbn [construction run_helper scoped] in *;
    unfold Get, GetCtx, Post, PostCtx, Put, PutCtx, Delete, DeleteCtx;
    rewrite H; apply Do_dispatch.
Qed.

(** X11.  The life of a client: built by [New], given middleware by any
    number of calls to [Use], it dispatches a request through all the
    registered middleware in registration order, then the call-supplied
    ones, then the transport handle it was built with; its base URL is
    the one it was built with. *)
Theorem New_Use_Do_lifecycle :
  forall (cl : HttpClient) (base : string)
         (batches : list (list ClientMiddleware))
         (rmw : list ClientMiddleware) (req : option Request)
         (w : World) (cs : list Call),
    self (register batches (mkState (New cl base) w cs))
    = mkClient cl base (concat batches)
    /\ fst (Do req rmw (register batches (mkState (New cl base) w cs)))
       = fst (dispatch cl (concat batches ++ rmw) req w)
    /\ world (snd (Do req rmw (register batches (mkState (New cl base) w cs))))
       = snd (dispatch cl (concat batches ++ rmw) req w).
Proof.
  intros cl base batches rmw req w cs.
  rewrite register_concat. cbn [New self client baseURL mw world calls app].
  split; [reflexivity|].
  exact (Do_dispatch req rmw
           (mkState (mkClient cl base (concat batches)) w cs)).
Qed.

End DispatchProperties.

(** ** The shape of what [path.Clean] returns *)

Module CleanFacts.

Import strings path PathShape StringFacts.

Lemma ends_slash_snoc (l : list ascii) (c : ascii) :
  ends_slash (l ++ [c]) = Ascii.eqb c slash.
Proof. unfold ends_slash. now rewrite last_last. Qed.

Lemma ends_slash_cons2 (a b : ascii) (t : list ascii) :
  ends_slash (a :: b :: t) = ends_slash (b :: t).
Proof. reflexivity. Qed.

Lemma has_double_slash_snoc (l : list ascii) (c : ascii) :
  has_double_slash (l ++ [c])
  = has_double_slash l || (ends_slash l && Ascii.eqb c slash).
Proof.
  induction l as [|a t IH].
  { cbn. now rewrite andb_false_r. }
  destruct t as [|b t'].
  - unfold ends_slash. cbn.
    destruct (Ascii.eqb a slash), (Ascii.eqb c slash); reflexivity.
  - change ((a :: b :: t') ++ [c]) with (a :: (b :: t') ++ [c]).
    cbn [has_double_slash app]. cbn [has_double_slash app] in IH. rewrite IH.
    rewrite ends_slash_cons2. now rewrite orb_assoc.
Qed.

Lemma has_double_slash_firstn (l : list ascii) :
  forall n, has_double_slash l = false -> has_double_slash (firstn n l) = false.
Proof.
  induction l as [|a t IH]; intros n H; [now destruct n|].
  destruct n as [|n]; [reflexivity|].
  cbn [firstn has_double_slash] in *.
  apply orb_false_iff in H. destruct H as [H1 H2].
  apply orb_false_iff. split; [|now apply IH].
  destruct t as [|b t'].
  - destruct n; cbn [firstn]; now rewrite andb_false_r.
  - destruct n; cbn [firstn]; [now rewrite andb_false_r | exact H1].
Qed.

Lemma has_double_slash_found (x y : list ascii) :
  has_double_slash (x ++ slash :: slash :: y) = true.
Proof.
  induction x as [|a x IH]; [reflexivity|].
  cbn [app has_double_slash]. rewrite IH. apply orb_true_r.
Qed.

Lemma ends_slash_inv (l : list ascii) :
  ends_slash l = true -> exists x, l = x ++ [slash].
Proof.
  destruct l as [|a t] using rev_ind; [discriminate|].
  rewrite ends_slash_snoc. intros H. apply Ascii.eqb_eq in H. subst.
  now exists t.
Qed.

(** The backtracking loop stops at the mark or on a slash. *)
Lemma backtrack_spec (out : list ascii) (dotdot : nat) :
  forall fuel w,
    w < fuel -> dotdot <= w ->
    dotdot <= backtrack fuel w dotdot out <= w
    /\ (backtrack fuel w dotdot out = dotdot
        \/ nth (backtrack fuel w dotdot out) out zero = slash).
Proof.
  induction fuel as [|fuel IH]; intros w Hw Hd; [lia|].
  cbn [backtrack].
  destruct (Nat.ltb_spec dotdot w) as [Hlt|Hge]; cbn [andb].
  - destruct (Ascii.eqb_spec (nth w out zero) slash) as [Hs|Hs]; cbn [negb].
    + split; [lia | now right].
    + destruct (IH (w - 1)) as [H1 H2]; [lia | lia |]. split; [lia | exact H2].
  - split; [lia | left; lia].
Qed.

(** Copying an element only appends bytes that are not slashes. *)
Lemma copy_element_spec (rest : list ascii) :
  forall out,
    has_double_slash out = false ->
    exists e,
      snd (copy_element rest out) = out ++ e
      /\ has_double_slash (out ++ e) = false
      /\ (e <> [] -> ends_slash (out ++ e) = false).
Proof.
  induction rest as [|c rest IH]; intros out H.
  - exists []. rewrite app_nil_r. repeat split; [exact H | congruence].
  - cbn [copy_element].
    destruct (Ascii.eqb c slash) eqn:Hc.
    + exists []. rewrite app_nil_r. repeat split; [exact H | congruence].
    + assert (H' : has_double_slash (out ++ [c]) = false).
      { rewrite has_double_slash_snoc, H, Hc. now rewrite andb_false_r. }
      destruct (IH _ H') as (e & E1 & E2 & E3).
      exists (c :: e). rewrite <- app_assoc in E1, E2, E3. cbn [app] in *.
      repeat split; [exact E1 | exact E2 |].
      intros _. destruct e as [|d e].
      * rewrite ends_slash_snoc. exact Hc.
      * apply E3. discriminate.
Qed.

Lemma firstn_prefix (l e : list ascii) (n : nat) :
  n <= length l -> firstn n (l ++ e) = firstn n l.
Proof.
  intros H. rewrite firstn_app.
  replace (n - length l) with 0 by lia. now rewrite firstn_O, app_nil_r.
Qed.

(** The loop of [Clean] keeps [clean_inv]. *)
Lemma clean_loop_keeps_inv (fuel : nat) :
  forall rooted rest out dotdot,
    clean_inv rooted out dotdot ->
    exists dotdot',
      clean_inv rooted (snd (clean_loop fuel rooted rest out dotdot)) dotdot'.
Proof.
  induction fuel as [|fuel IH]; intros rooted rest out dotdot Hinv;
    [now exists dotdot|].
  destruct rest as [|c rest1]; [now exists dotdot|].
  cbn [clean_loop].
  destruct (Ascii.eqb c slash) eqn:Hc; [now apply IH|].
  destruct (is_dot (c :: rest1)); [now apply IH|].
  destruct Hinv as (I1 & I2 & I3 & I4).
  destruct (is_dotdot (c :: rest1)).
  - (* .. element *)
    destruct (Nat.ltb_spec dotdot (length out)) as [Hlt|Hge].
    + (* backtrack *)
      destruct (backtrack_spec out dotdot (length out) (length out - 1))
        as [Hb1 Hb2]; [lia | lia |].
      set (w := backtrack (length out) (length out - 1) dotdot out) in *.
      apply IH. split; [|split; [|split]].
      * now apply has_double_slash_firstn.
      * intros H. destruct Hb2 as [Hw|Hs]; [rewrite Hw in *; now apply I4|].
        exfalso.
        destruct (nth_split out zero (n := w)) as (l1 & l2 & Ho & Hl); [lia|].
        rewrite Hs in Ho.
        assert (Hf : firstn w out = l1).
        { rewrite Ho at 1. rewrite <- Hl. rewrite firstn_app, firstn_all.
          now rewrite Nat.sub_diag, firstn_O, app_nil_r. }
        rewrite Hf in H. apply ends_slash_inv in H. destruct H as [x ->].
        rewrite Ho, <- app_assoc in I1. cbn [app] in I1.
        rewrite has_double_slash_found in I1. discriminate.
      * rewrite length_firstn. lia.
      * rewrite firstn_firstn. replace (Nat.min dotdot w) with dotdot by lia.
        exact I4.
    + destruct rooted; cbn [negb].
      * apply IH. split; [|split; [|split]]; assumption.
      * (* append a .. element *)
        assert (E : ends_slash out = false).
        { destruct (ends_slash out); [|reflexivity].
          now destruct (I2 eq_refl). }
        set (out1 := if 0 <? length out then out ++ [slash] else out).
        assert (D1 : has_double_slash out1 = false).
        { unfold out1. destruct (0 <? length out); [|exact I1].
          rewrite has_double_slash_snoc, I1, E. reflexivity. }
        assert (D2 : has_double_slash (out1 ++ [dot; dot]) = false).
        { change [dot; dot] with ([dot] ++ [dot]). rewrite app_assoc.
          rewrite !has_double_slash_snoc, D1. cbn.
          now rewrite !andb_false_r. }
        assert (E2 : ends_slash (out1 ++ [dot; dot]) = false).
        { change [dot; dot] with ([dot] ++ [dot]). rewrite app_assoc.
          now rewrite ends_slash_snoc. }
        apply IH. split; [|split; [|split]].
        -- exact D2.
        -- intros H. rewrite E2 in H. discriminate.
        -- lia.
        -- intros H. rewrite firstn_all, E2 in H. discriminate.
  - (* real path element *)
    set (out1 := if (rooted && negb (length out =? 1))
                    || (negb rooted && negb (length out =? 0))
                 then out ++ [slash] else out).
    assert (P1 : exists s, out1 = out ++ s).
    { unfold out1. destruct ((rooted && negb (length out =? 1))
                             || (negb rooted && negb (length out =? 0))).
      - now exists [slash].
      - exists []. now rewrite app_nil_r. }
    assert (D1 : has_double_slash out1 = false).
    { unfold out1.
      destruct ((rooted && negb (length out =? 1))
                || (negb rooted && negb (length out =? 0))) eqn:Hcond;
        [|exact I1].
      rewrite has_double_slash_snoc, I1.
      destruct (ends_slash out); [|reflexivity].
      destruct (I2 eq_refl) as [-> ->]. discriminate. }
    assert (Hce : copy_element (c :: rest1) out1
                  = copy_element rest1 (out1 ++ [c]))
      by (cbn [copy_element]; now rewrite Hc).
    rewrite Hce.
    assert (D1' : has_double_slash (out1 ++ [c]) = false).
    { rewrite has_double_slash_snoc, D1, Hc. now rewrite andb_false_r. }
    destruct (copy_element_spec rest1 _ D1') as (e & E1 & E2 & E3).
    destruct (copy_element rest1 (out1 ++ [c])) as [rest' out2].
    cbn [snd] in E1. subst out2.
    assert (E4 : ends_slash ((out1 ++ [c]) ++ e) = false).
    { destruct e as [|d e]; [|apply E3; discriminate].
      now rewrite app_nil_r, ends_slash_snoc. }
    destruct P1 as [s Hs].
    assert (Hpre : (out1 ++ [c]) ++ e = out ++ (s ++ [c] ++ e)).
    { rewrite Hs. now rewrite <- !app_assoc. }
    apply IH. split; [|split; [|split]].
    + exact E2.
    + intros H. rewrite E4 in H. discriminate.
    + rewrite Hpre, length_app. lia.
    + rewrite Hpre, firstn_prefix by exact I3. exact I4.
Qed.

(** [Clean] returns a path without two slashes in a row, and with a slash
    at its end only when it is the root. *)
Lemma Clean_shape (p : string) :
  has_double_slash (bytes (Clean p)) = false
  /\ (ends_slash (bytes (Clean p)) = true -> Clean p = "/").
Proof.
  unfold Clean. destruct (bytes p) as [|c tail]; [split; [reflexivity | discriminate]|].
  assert (H : exists out dd,
             (let '(_, out) :=
                if Ascii.eqb c slash
                then clean_loop (length tail) (Ascii.eqb c slash) tail [slash] 1
                else clean_loop (length (c :: tail)) (Ascii.eqb c slash)
                                (c :: tail) [] 0 in
              match out with [] => "."%string | _ => of_bytes out end)
             = match out with [] => "."%string | _ => of_bytes out end
             /\ clean_inv (Ascii.eqb c slash) out dd).
  { destruct (Ascii.eqb c slash) eqn:Hc.
    - destruct (clean_loop_keeps_inv (length tail) true tail [slash] 1)
        as [dd Hinv].
      { split; [|split; [|split]]; auto. }
      destruct (clean_loop (length tail) true tail [slash] 1) as [r out].
      now exists out, dd.
    - destruct (clean_loop_keeps_inv (length (c :: tail)) false (c :: tail) [] 0)
        as [dd Hinv].
      { split; [|split; [|split]]; auto; discriminate. }
      destruct (clean_loop (length (c :: tail)) false (c :: tail) [] 0)
        as [r out].
      now exists out, dd. }
  destruct H as (out & dd & -> & I1 & I2 & _).
  destruct out as [|a out]; [split; [reflexivity | discriminate]|].
  rewrite bytes_of_bytes. split; [exact I1|].
  intros H. now destruct (I2 H) as [-> _].
Qed.

Lemma Join_shape (elem : list string) :
  has_double_slash (bytes (Join elem)) = false
  /\ (ends_slash (bytes (Join elem)) = true -> Join elem = "/").
Proof.
  unfold Join.
  destruct (fold_left (fun n e => n + String.length e) elem 0 =? 0);
    [split; [reflexivity | discriminate] | apply Clean_shape].
Qed.

End CleanFacts.

(** ** What [Path] returns for relative paths *)

Module TrimFacts.

Import strings path StringFacts.

Lemma trimLeftBytes_repeat (c : ascii) (k : nat) (l : list ascii) :
  trimLeftBytes (repeat c k ++ l) c = trimLeftBytes l c.
Proof.
  induction k as [|k IH]; [reflexivity|].
  cbn [repeat app trimLeftBytes]. now rewrite Ascii.eqb_refl.
Qed.

Lemma bytes_Repeat (c : ascii) (k : nat) :
  bytes (Repeat (String c EmptyString) k) = repeat c k.
Proof. now rewrite <- of_bytes_repeat, bytes_of_bytes. Qed.

Lemma TrimRight_slash_byte (s : string) :
  TrimRight s "/" = trimRightByte s "/"%char.
Proof. destruct s; reflexivity. Qed.

Lemma TrimLeft_slash_byte (s : string) :
  TrimLeft s "/" = trimLeftByte s "/"%char.
Proof. destruct s; reflexivity. Qed.

(** Slashes added at the end of a string are trimmed with the others. *)
Lemma TrimRight_more_slashes (s : string) (k : nat) :
  TrimRight (s ++ Repeat "/" k) "/" = TrimRight s "/".
Proof.
  rewrite !TrimRight_slash_byte. unfold trimRightByte.
  rewrite bytes_app, bytes_Repeat, rev_app_distr, rev_repeat_same.
  now rewrite trimLeftBytes_repeat.
Qed.

(** Slashes added in front of a string are trimmed with the others. *)
Lemma TrimLeft_more_slashes (s : string) (k : nat) :
  TrimLeft (Repeat "/" k ++ s) "/" = TrimLeft s "/".
Proof.
  rewrite !TrimLeft_slash_byte. unfold trimLeftByte.
  now rewrite bytes_app, bytes_Repeat, trimLeftBytes_repeat.
Qed.

Lemma HasPrefix_http_after_slashes (s : string) (k : nat) :
  HasPrefix s "http" = false ->
  HasPrefix (Repeat "/" k ++ s) "http" = false.
Proof.
  intros H. destruct k as [|k]; [exact H|].
  cbn [Repeat append]. unfold HasPrefix. apply andb_false_iff.
  destruct (Nat.leb (String.length "http")
                    (String.length (String "/" (Repeat "/" k ++ s))));
    [right | now left].
  cbn [String.length substring]. reflexivity.
Qed.

Lemma Repeat_append_nonempty (s : string) (k : nat) :
  s <> EmptyString -> (Repeat "/" k ++ s)%string <> EmptyString.
Proof. intros H. destruct k; [exact H | discriminate]. Qed.

End TrimFacts.

Section RelativePathProperties.

Context `{env : GoEnv}.

Import strings path PathShape.

(** For a relative, non-empty path, [Path] is [path.Join] of the trimmed
    base and the trimmed path. *)
Lemma Path_relative (c : Client) (url : string) :
  url <> EmptyString ->
  HasPrefix url "http" = false ->
  Path c url = Join [TrimRight (baseURL c) "/"; TrimLeft url "/"].
Proof.
  intros Hne Hrel. unfold Path. rewrite Hrel.
  destruct (String.eqb_spec url EmptyString); [contradiction | reflexivity].
Qed.

(** X5.  For a path that is not empty and does not start with ["http"],
    [Path] never returns a string with two slashes in a row, whatever the
    base URL: no result holds a ["//"], hence none holds the ["://"] of a
    URL with a scheme. *)
Theorem Path_relative_has_no_double_slash :
  forall (c : Client) (url : string),
    url <> EmptyString ->
    HasPrefix url "http" = false ->
    forall a b : string, Path c url <> (a ++ "//" ++ b)%string.
Proof.
  intros c url Hne Hrel a b H.
  rewrite (Path_relative c url Hne Hrel) in H.
  destruct (CleanFacts.Join_shape
              [TrimRight (baseURL c) "/"; TrimLeft url "/"]) as [Hd _].
  rewrite H, !StringFacts.bytes_app in Hd.
  change (bytes "//") with [slash; slash] in Hd. cbn [app] in Hd.
  rewrite CleanFacts.has_double_slash_found in Hd. discriminate.
Qed.

(** X6.  For such a path the result never ends with a slash, unless it
    is the root ["/"] itself: a trailing slash of the path is lost. *)
Theorem Path_relative_drops_trailing_slash :
  forall (c : Client) (url : string),
    url <> EmptyString ->
    HasPrefix url "http" = false ->
    forall a : string, Path c url = (a ++ "/")%string -> a = EmptyString.
Proof.
  intros c url Hne Hrel a H.
  rewrite (Path_relative c url Hne Hrel) in H.
  destruct (CleanFacts.Join_shape
              [TrimRight (baseURL c) "/"; TrimLeft url "/"]) as [_ He].
  rewrite H in He.
  assert (E : ends_slash (bytes (a ++ "/")) = true).
  { rewrite StringFacts.bytes_app. change (bytes "/") with [slash].
    now rewrite CleanFacts.ends_slash_snoc. }
  specialize (He E). destruct a as [|x a]; [reflexivity|].
  cbn [append] in He. injection He as _ He. destruct a; discriminate He.
Qed.

(** X7.  Slashes at the end of the base URL do not count: a client whose
    base has [k] more of them resolves every path to the same string. *)
Theorem Path_ignores_trailing_slashes_of_base :
  forall (cl : HttpClient) (ms : list ClientMiddleware)
         (base url : string) (k : nat),
    Path (mkClient cl (base ++ Repeat "/" k) ms) url
    = Path (mkClient cl base ms) url.
Proof.
  intros cl ms base url k. unfold Path. cbn [baseURL].
  now rewrite TrimFacts.TrimRight_more_slashes.
Qed.

(** X8.  Slashes in front of a relative, non-empty path do not count. *)
Theorem Path_ignores_leading_slashes_of_path :
  forall (c : Client) (url : string) (k : nat),
    url <> EmptyString ->
    HasPrefix url "http" = false ->
    Path c (Repeat "/" k ++ url) = Path c url.
Proof.
  intros c url k Hne Hrel.
  rewrite (Path_relative c url Hne Hrel).
  rewrite (Path_relative c (Repeat "/" k ++ url)
             (TrimFacts.Repeat_append_nonempty url k Hne)
             (TrimFacts.HasPrefix_http_after_slashes url k Hrel)).
  now rewrite TrimFacts.TrimLeft_more_slashes.
Qed.

End RelativePathProperties.

(** ** [Path] on bases and paths made of plain elements *)

Module PlainFacts.

Import strings path PathShape StringFacts.

Lemma plain_element_bytes (e : string) :
  plain_element e = true ->
  existsb (fun c => Ascii.eqb c slash) (bytes e) = false
  /\ bytes e <> [] /\ bytes e <> [dot] /\ bytes e <> [dot; dot].
Proof.
  unfold plain_element. intros H.
  repeat (apply andb_true_iff in H; destruct H as [H ?]).
  apply negb_true_iff in H.
  repeat match goal with
         | K : negb _ = true |- _ =>
             apply negb_true_iff, String.eqb_neq in K
         end.
  split; [exact H|].
  repeat split; intros E; apply (f_equal of_bytes) in E;
    rewrite of_bytes_bytes in E; subst e; auto.
Qed.

(** An element that is neither [.] nor [..] and holds no slash is not
    taken for one of them, at the end of the input or before a slash. *)
Lemma element_is_no_dots (e tl : list ascii) :
  existsb (fun c => Ascii.eqb c slash) e = false ->
  e <> [dot] -> e <> [dot; dot] ->
  tl = [] \/ (exists R, tl = slash :: R) ->
  is_dot (e ++ tl) = false /\ is_dotdot (e ++ tl) = false.
Proof.
  intros Hs H1 H2 Htl.
  assert (Hdot : Ascii.eqb slash dot = false) by reflexivity.
  assert (Htl' : tl = [] \/ tl = [slash] \/ exists r R, tl = slash :: r :: R).
  { destruct Htl as [->|[[|r R] ->]]; eauto. }
  clear Htl.
  destruct e as [|c [|c1 [|c2 e3]]]; cbn [existsb] in Hs;
    repeat (apply orb_false_iff in Hs; destruct Hs as [? Hs]);
    destruct Htl' as [->|[->|(r & R & ->)]];
    cbn [app is_dot is_dotdot];
    rewrite ?Ascii.eqb_refl, ?Hdot;
    repeat match goal with
           | K : Ascii.eqb _ slash = false |- _ => rewrite K; clear K
           end;
    repeat match goal with
           | |- context [Ascii.eqb ?a dot] =>
               destruct (Ascii.eqb_spec a dot); subst
           end;
    cbn [andb]; rewrite ?andb_false_r;
    try (split; reflexivity); try congruence;
    destruct R; split; reflexivity.
Qed.

Lemma copy_element_plain (e : list ascii) :
  existsb (fun c => Ascii.eqb c slash) e = false ->
  forall out,
    copy_element e out = ([], out ++ e)
    /\ forall R, copy_element (e ++ slash :: R) out = (slash :: R, out ++ e).
Proof.
  induction e as [|c e IH]; intros Hs out.
  - rewrite app_nil_r. split; [reflexivity|]. intros R. reflexivity.
  - cbn [existsb] in Hs. apply orb_false_iff in Hs. destruct Hs as [Hc Hs].
    cbn [app copy_element]. rewrite Hc.
    destruct (IH Hs (out ++ [c])) as [A B]. split.
    + rewrite A. now rewrite <- app_assoc.
    + intros R. rewrite (B R). now rewrite <- app_assoc.
Qed.

Lemma clean_loop_nil (fuel : nat) (rooted : bool) (out : list ascii)
      (dotdot : nat) :
  clean_loop fuel rooted [] out dotdot = ([], out).
Proof. now destruct fuel. Qed.

Lemma bytes_concat_cons (e e2 : string) (es : list string) :
  bytes (String.concat "/" (e :: e2 :: es))
  = bytes e ++ slash :: bytes (String.concat "/" (e2 :: es)).
Proof.
  change (String.concat "/" (e :: e2 :: es))
    with (e ++ "/" ++ String.concat "/" (e2 :: es))%string.
  now rewrite !bytes_app.
Qed.

(** On plain elements separated by single slashes the loop of [Clean]
    copies its input, after the slash that separates it from what the
    buffer holds. *)
Lemma clean_loop_plain (es : list string) :
  es <> [] ->
  forallb plain_element es = true ->
  forall fuel rooted out dotdot,
    length (bytes (String.concat "/" es)) <= fuel ->
    clean_loop fuel rooted (bytes (String.concat "/" es)) out dotdot
    = ([], out
           ++ (if (rooted && negb (length out =? 1))
                  || (negb rooted && negb (length out =? 0))
               then [slash] else [])
           ++ bytes (String.concat "/" es)).
Proof.
  induction es as [|e es IH]; intros Hne Hall fuel rooted out dotdot Hfuel;
    [contradiction|].
  cbn [forallb] in Hall. apply andb_true_iff in Hall.
  destruct Hall as [He Hall].
  destruct (plain_element_bytes e He) as (Hs & Hn & H1 & H2).
  set (out1 := out ++ (if (rooted && negb (length out =? 1))
                          || (negb rooted && negb (length out =? 0))
                       then [slash] else [])).
  assert (Hout1 : (if (rooted && negb (length out =? 1))
                      || (negb rooted && negb (length out =? 0))
                   then out ++ [slash] else out) = out1).
  { unfold out1. destruct ((rooted && negb (length out =? 1))
                           || (negb rooted && negb (length out =? 0)));
      [reflexivity | now rewrite app_nil_r]. }
  destruct es as [|e2 es].
  - (* the last element *)
    change (String.concat "/" [e]) with e in *.
    destruct (element_is_no_dots (bytes e) [] Hs H1 H2 (or_introl eq_refl))
      as [Hd Hdd].
    rewrite app_nil_r in Hd, Hdd.
    destruct (copy_element_plain (bytes e) Hs out1) as [Hcopy _].
    destruct (bytes e) as [|c e'] eqn:Eb; [contradiction|].
    cbn [existsb] in Hs. apply orb_false_iff in Hs. destruct Hs as [Hc _].
    destruct fuel as [|fuel]; [cbn [length] in Hfuel; lia|].
    cbn [clean_loop]. rewrite Hc, Hd, Hdd, Hout1, Hcopy.
    rewrite clean_loop_nil. unfold out1. now rewrite <- app_assoc.
  - (* an element followed by others *)
    rewrite bytes_concat_cons in *.
    set (R := bytes (String.concat "/" (e2 :: es))) in *.
    destruct (element_is_no_dots (bytes e) (slash :: R) Hs H1 H2
                (or_intror (ex_intro _ R eq_refl))) as [Hd Hdd].
    destruct (copy_element_plain (bytes e) Hs out1) as [_ Hcopy].
    specialize (Hcopy R).
    destruct (bytes e) as [|c e'] eqn:Eb; [contradiction|].
    cbn [existsb] in Hs. apply orb_false_iff in Hs. destruct Hs as [Hc _].
    cbn [app] in Hd, Hdd, Hcopy, Hfuel |- *.
    cbn [length] in Hfuel. rewrite length_app in Hfuel. cbn [length] in Hfuel.
    destruct fuel as [|fuel]; [lia|].
    cbn [clean_loop]. rewrite Hc, Hd, Hdd, Hout1, Hcopy.
    destruct fuel as [|fuel]; [lia|].
    cbn [clean_loop]. rewrite Ascii.eqb_refl.
    rewrite (IH ltac:(discriminate) Hall) by lia.
    assert (Hlen : 2 <= length (out1 ++ c :: e') \/ rooted = false /\ 1 <= length (out1 ++ c :: e')).
    { unfold out1. rewrite !length_app. cbn [length].
      destruct rooted; [left | right; split; [reflexivity | lia]].
      destruct (length out) as [|[|n]]; cbn; lia. }
    assert (Hsep : (if (rooted && negb (length (out1 ++ c :: e') =? 1))
                       || (negb rooted && negb (length (out1 ++ c :: e') =? 0))
                    then [slash] else []) = [slash]).
    { destruct Hlen as [Hl | [-> Hl]].
      - destruct (Nat.eqb_spec (length (out1 ++ c :: e')) 1); [lia|].
        destruct (Nat.eqb_spec (length (out1 ++ c :: e')) 0); [lia|].
        now destruct rooted.
      - destruct (Nat.eqb_spec (length (out1 ++ c :: e')) 0); [lia|].
        reflexivity. }
    rewrite Hsep. unfold out1. rewrite <- !app_assoc. reflexivity.
Qed.

Lemma head_of_plain (es : list string) :
  es <> [] ->
  forallb plain_element es = true ->
  exists c tail,
    bytes (String.concat "/" es) = c :: tail /\ Ascii.eqb c slash = false.
Proof.
  intros Hne Hall. destruct es as [|e es]; [contradiction|].
  cbn [forallb] in Hall. apply andb_true_iff in Hall. destruct Hall as [He _].
  destruct (plain_element_bytes e He) as (Hs & Hn & _).
  assert (Hb : exists tl, bytes (String.concat "/" (e :: es)) = bytes e ++ tl).
  { destruct es; [exists []; now rewrite app_nil_r|].
    rewrite bytes_concat_cons. eauto. }
  destruct Hb as [tl ->].
  destruct (bytes e) as [|c e']; [contradiction|].
  cbn [existsb] in Hs. apply orb_false_iff in Hs. destruct Hs as [Hc _].
  exists c, (e' ++ tl). now split.
Qed.

(** [Clean] returns such a path as it is, rooted or not. *)
Lemma Clean_plain (rooted : bool) (es : list string) :
  plain_elements es = true ->
  Clean ((if rooted then "/" else EmptyString) ++ String.concat "/" es)
  = ((if rooted then "/" else EmptyString) ++ String.concat "/" es)%string.
Proof.
  intros Hp.
  assert (Hne : es <> []) by (destruct es; [discriminate | discriminate]).
  assert (Hall : forallb plain_element es = true) by (now destruct es).
  destruct (head_of_plain es Hne Hall) as (c & tail & Hb & Hc).
  unfold Clean. destruct rooted.
  - rewrite bytes_app. change (bytes "/") with [slash]. cbn [app].
    rewrite Ascii.eqb_refl.
    rewrite clean_loop_plain by (auto; lia). cbn [length Nat.eqb negb andb orb app].
    rewrite Hb. cbn [app]. rewrite <- Hb.
    change (slash :: bytes (String.concat "/" es))
      with (bytes "/" ++ bytes (String.concat "/" es)).
    now rewrite <- bytes_app, of_bytes_bytes.
  - cbn [append]. rewrite Hb, Hc. rewrite <- Hb.
    rewrite clean_loop_plain by (auto; lia). cbn [length Nat.eqb negb andb orb app].
    rewrite Hb. rewrite <- Hb. now rewrite of_bytes_bytes.
Qed.

Lemma append_assoc (a b c : string) :
  ((a ++ b) ++ c = a ++ b ++ c)%string.
Proof. induction a as [|x a IH]; cbn [append]; [reflexivity | now rewrite IH]. Qed.

Lemma concat_app_plain (bs us : list string) :
  bs <> [] -> us <> [] ->
  String.concat "/" (bs ++ us)
  = (String.concat "/" bs ++ "/" ++ String.concat "/" us)%string.
Proof.
  intros Hb Hu. induction bs as [|b bs IH]; [contradiction|].
  destruct bs as [|b2 bs].
  - destruct us as [|u us]; [contradiction | reflexivity].
  - change (String.concat "/" ((b :: b2 :: bs) ++ us))
      with (b ++ "/" ++ String.concat "/" ((b2 :: bs) ++ us))%string.
    rewrite IH by discriminate.
    change (String.concat "/" (b :: b2 :: bs))
      with (b ++ "/" ++ String.concat "/" (b2 :: bs))%string.
    now rewrite !append_assoc.
Qed.

End PlainFacts.

Section PlainPathProperties.

Context `{env : GoEnv}.

Import strings path PathShape.

Lemma Join_two (b u : string) :
  b <> EmptyString -> Join [b; u] = Clean (b ++ "/" ++ u).
Proof.
  intros Hb. unfold Join. cbn [fold_left].
  destruct b as [|x b]; [contradiction|].
  cbn [String.length Nat.add Nat.eqb join_buf length Nat.ltb Nat.leb
       String.eqb orb negb app bytes list_ascii_of_string].
  f_equal. rewrite <- (StringFacts.of_bytes_bytes (String x b ++ "/" ++ u)).
  f_equal. rewrite !StringFacts.bytes_app. unfold bytes.
  cbn [list_ascii_of_string app]. now rewrite <- app_assoc.
Qed.

(** X9.  For a path that does not start with ["http"]: when the trimmed
    base and the trimmed path are made of plain elements (not empty,
    without a slash, neither [.] nor [..]) separated by single slashes,
    the base possibly starting with one slash, [Path] returns the trimmed
    base, one slash, and the trimmed path.  (A path that starts with
    ["http"] is returned as it is, plain elements or not.) *)
Theorem Path_of_plain_elements_is_concatenation :
  forall (c : Client) (url : string) (rooted : bool) (bs us : list string),
    HasPrefix url "http" = false ->
    plain_elements bs = true ->
    plain_elements us = true ->
    TrimRight (baseURL c) "/"
    = ((if rooted then "/" else EmptyString) ++ String.concat "/" bs)%string ->
    TrimLeft url "/" = String.concat "/" us ->
    Path c url = (TrimRight (baseURL c) "/" ++ "/" ++ TrimLeft url "/")%string.
Proof.
  intros c url rooted bs us Hrel Hbs Hus Hb Hu.
  assert (Nb : bs <> []) by (destruct bs; discriminate).
  assert (Nu : us <> []) by (destruct us; discriminate).
  assert (Ab : forallb plain_element bs = true) by (now destruct bs).
  assert (Au : forallb plain_element us = true) by (now destruct us).
  assert (Hne : url <> EmptyString).
  { intros ->. destruct (PlainFacts.head_of_plain us Nu Au) as (x & t & E & _).
    rewrite <- Hu in E. discriminate. }
  assert (Hbne : TrimRight (baseURL c) "/" <> EmptyString).
  { rewrite Hb. destruct rooted; [discriminate|]. cbn [append].
    destruct (PlainFacts.head_of_plain bs Nb Ab) as (x & t & E & _).
    intros E'. rewrite E' in E. discriminate. }
  rewrite (Path_relative c url Hne Hrel), (Join_two _ _ Hbne).
  rewrite Hb, Hu, PlainFacts.append_assoc.
  rewrite <- PlainFacts.concat_app_plain by assumption.
  apply PlainFacts.Clean_plain.
  assert (N : bs ++ us <> []) by (destruct bs; [contradiction | discriminate]).
  unfold plain_elements. destruct (bs ++ us) eqn:E; [contradiction|].
  rewrite <- E, forallb_app, Ab, Au. reflexivity.
Qed.

End PlainPathProperties.

(** ** [Path] on a base URL that is empty or made of slashes *)

Module UnrootedFacts.

Import strings path StringFacts.

Lemma copy_element_extends (rest : list ascii) :
  forall out, exists e, snd (copy_element rest out) = out ++ e.
Proof.
  induction rest as [|c rest IH]; intros out.
  - exists []. now rewrite app_nil_r.
  - cbn [copy_element]. destruct (Ascii.eqb c slash).
    + exists []. now rewrite app_nil_r.
    + destruct (IH (out ++ [c])) as [e ->]. exists (c :: e).
      now rewrite <- app_assoc.
Qed.

Lemma hd_firstn (l : list ascii) (n : nat) :
  hd dot l <> slash -> hd dot (firstn n l) <> slash.
Proof. destruct n, l; cbn; auto; discriminate. Qed.

Lemma hd_app (l e : list ascii) :
  l <> [] -> hd dot (l ++ e) = hd dot l.
Proof. destruct l; [contradiction | reflexivity]. Qed.

(** On a path that is not rooted, the buffer of [Clean] never starts
    with a slash. *)
Lemma clean_loop_unrooted_head (fuel : nat) :
  forall rest out dotdot,
    hd dot out <> slash ->
    hd dot (snd (clean_loop fuel false rest out dotdot)) <> slash.
Proof.
  induction fuel as [|fuel IH]; intros rest out dotdot H; [exact H|].
  destruct rest as [|c rest1]; [exact H|].
  cbn [clean_loop andb orb negb].
  destruct (Ascii.eqb c slash) eqn:Hc; [now apply IH|].
  destruct (is_dot (c :: rest1)); [now apply IH|].
  destruct (is_dotdot (c :: rest1)).
  - destruct (dotdot <? length out).
    + apply IH. now apply hd_firstn.
    + apply IH. destruct out as [|a out]; [discriminate | exact H].
  - assert (Hce : copy_element (c :: rest1)
                    (if negb (length out =? 0) then out ++ [slash] else out)
                  = copy_element rest1
                      ((if negb (length out =? 0) then out ++ [slash] else out)
                       ++ [c]))
      by (cbn [copy_element]; now rewrite Hc).
    rewrite Hce.
    destruct (copy_element_extends rest1
                ((if negb (length out =? 0) then out ++ [slash] else out)
                 ++ [c])) as [e He].
    destruct (copy_element rest1 _) as [rest' out2]. cbn [snd] in He.
    subst out2. apply IH.
    destruct out as [|a out]; cbn.
    + intros E. rewrite E in Hc. discriminate.
    + exact H.
Qed.

(** [Clean] of a path that does not start with a slash does not start
    with a slash. *)
Lemma Clean_unrooted (p : string) :
  hd dot (bytes p) <> slash -> hd dot (bytes (Clean p)) <> slash.
Proof.
  intros H. unfold Clean.
  destruct (bytes p) as [|c tail]; [discriminate|].
  cbn [hd] in H.
  destruct (Ascii.eqb_spec c slash) as [E|_]; [contradiction|].
  pose proof (clean_loop_unrooted_head (length (c :: tail)) (c :: tail) [] 0)
    as Hh.
  destruct (clean_loop (length (c :: tail)) false (c :: tail) [] 0)
    as [r out].
  cbn [snd] in Hh. destruct out as [|a out]; [discriminate|].
  rewrite bytes_of_bytes. apply Hh. discriminate.
Qed.

Lemma TrimLeft_slash_head (s : string) :
  hd dot (bytes (TrimLeft s "/")) <> slash.
Proof.
  rewrite TrimFacts.TrimLeft_slash_byte. unfold trimLeftByte.
  rewrite bytes_of_bytes.
  destruct (trimLeftBytes_spec (bytes s) "/"%char) as (k & _ & Hhd).
  destruct (trimLeftBytes (bytes s) "/"%char) as [|a t];
    [cbv; discriminate|].
  cbn [hd]. unfold slash. intros ->. exact (Hhd t eq_refl).
Qed.

Lemma TrimRight_only_slashes (k : nat) :
  TrimRight (Repeat "/" k) "/" = EmptyString.
Proof.
  change (Repeat "/" k) with (EmptyString ++ Repeat "/" k)%string.
  now rewrite TrimFacts.TrimRight_more_slashes.
Qed.

Lemma Join_empty_base (u : string) :
  Join [EmptyString; u]
  = if String.eqb u EmptyString then EmptyString else Clean u.
Proof.
  unfold Join. cbn [fold_left String.length Nat.add join_buf length Nat.ltb
                    Nat.leb String.eqb orb negb].
  destruct u as [|x u]; [reflexivity|].
  cbn [String.length Nat.eqb String.eqb orb negb app].
  now rewrite of_bytes_bytes.
Qed.

End UnrootedFacts.

Section EmptyBaseProperties.

Context `{env : GoEnv}.

Import strings path.

(** X12.  When the base URL is empty or made of slashes only, it is
    trimmed to nothing and [path.Join] skips it: for a relative, non-empty
    path the result never starts with a slash.  The root of a base ["/"]
    is lost together with the leading slashes of the path. *)
Theorem Path_on_slash_base_is_never_rooted :
  forall (c : Client) (url : string) (k : nat),
    baseURL c = Repeat "/" k ->
    url <> EmptyString ->
    HasPrefix url "http" = false ->
    forall t : string, Path c url <> ("/" ++ t)%string.
Proof.
  intros c url k Hb Hne Hrel t H.
  rewrite (Path_relative c url Hne Hrel), Hb in H.
  rewrite UnrootedFacts.TrimRight_only_slashes in H.
  rewrite UnrootedFacts.Join_empty_base in H.
  destruct (String.eqb (TrimLeft url "/") EmptyString); [discriminate|].
  pose proof (UnrootedFacts.Clean_unrooted (TrimLeft url "/")
                (UnrootedFacts.TrimLeft_slash_head url)) as Hh.
  rewrite H in Hh. apply Hh. reflexivity.
Qed.

End EmptyBaseProperties.

(** ** The further properties at concrete inputs *)

Module MoreExamples.

Import Fixture.

(** X5 at base ["http://base/"] and path ["/a/b"]: the result is not the
    URL ["http://base/a/b"]. *)
Lemma no_double_slash_witness :
  "/a/b" <> EmptyString
  /\ strings.HasPrefix "/a/b" "http" = false
  /\ Path (self registered) "/a/b" <> ("http:" ++ "//" ++ "base/a/b")%string.
Proof.
  assert (H : "/a/b" <> EmptyString) by discriminate.
  split; [exact H | split; [reflexivity|]].
  exact (Path_relative_has_no_double_slash
           (self registered) "/a/b" H eq_refl "http:" "base/a/b").
Defined.

(** X6 at the path ["a/b/"]. *)
Lemma trailing_slash_witness :
  "a/b/" <> EmptyString
  /\ strings.HasPrefix "a/b/" "http" = false
  /\ (forall a : string,
         Path (self registered) "a/b/" = (a ++ "/")%string -> a = EmptyString).
Proof.
  assert (H : "a/b/" <> EmptyString) by discriminate.
  split; [exact H | split; [reflexivity|]].
  exact (Path_relative_drops_trailing_slash
           (self registered) "a/b/" H eq_refl).
Defined.

(** X8 at the path ["a/b"] with two slashes in front. *)
Lemma leading_slashes_witness :
  "a/b" <> EmptyString
  /\ strings.HasPrefix "a/b" "http" = false
  /\ Path (self registered) "//a/b" = Path (self registered) "a/b".
Proof.
  assert (H : "a/b" <> EmptyString) by discriminate.
  split; [exact H | split; [reflexivity|]].
  exact (Path_ignores_leading_slashes_of_path
           (self registered) "a/b" 2 H eq_refl).
Defined.

(** X9 at base ["/api/v1/"] and path ["/users/42"]. *)
Lemma plain_elements_witness :
  strings.HasPrefix "/users/42" "http" = false
  /\ PathShape.plain_elements ["api"; "v1"] = true
  /\ PathShape.plain_elements ["users"; "42"] = true
  /\ Path (mkClient tt "/api/v1/" []) "/users/42" = "/api/v1/users/42".
Proof.
  split; [reflexivity | split; [reflexivity | split; [reflexivity|]]].
  exact (Path_of_plain_elements_is_concatenation
           (mkClient tt "/api/v1/" []) "/users/42" true
           ["api"; "v1"] ["users"; "42"]
           eq_refl eq_refl eq_refl eq_refl eq_refl).
Defined.

(** X10 at [Get] on a well-formed URL, with one call-supplied
    middleware. *)
Lemma helper_success_witness :
  construction (CGet "http://x/y" [mark "n1"])
  = (Some ["GET"; "http://x/y"], None)
  /\ fst (run_helper (CGet "http://x/y" [mark "n1"]) registered)
     = (Some 200, None)
  /\ world (snd (run_helper (CGet "http://x/y" [mark "n1"]) registered))
     = mkWorld ["m1"; "m2"; "n1"; "send"] reply.
Proof.
  split; [reflexivity|].
  exact (helper_success_is_dispatch
           (CGet "http://x/y" [mark "n1"]) registered
           (Some ["GET"; "http://x/y"]) eq_refl).
Defined.

(** X12 at base ["/"] and path ["/a"]: the result is ["a"]. *)
Lemma slash_base_witness :
  baseURL (New tt "/") = strings.Repeat "/" 1
  /\ "/a" <> EmptyString
  /\ strings.HasPrefix "/a" "http" = false
  /\ Path (New tt "/") "/a" <> ("/" ++ "a")%string
  /\ Path (New tt "/") "/a" = "a".
Proof.
  assert (H : "/a" <> EmptyString) by discriminate.
  split; [reflexivity | split; [exact H | split; [reflexivity|]]].
  split; [|reflexivity].
  exact (Path_on_slash_base_is_never_rooted
           (New tt "/") "/a" 1 eq_refl H eq_refl "a").
Defined.

End MoreExamples.
